(** * shuttlecock_kakao: the news-search chatbot skill (app.js and its revision)

    A shallow embedding of the two variants of the skill server that the
    repository holds:

    - [AppJs]   : src/app.js
    - [Revised] : src/unnamed/part_001 (src/unnamed/part_000 is the same
      program, its Korean literals stored in another encoding)

    JavaScript strings are sequences of UTF-16 code units; the regular
    expressions of the source are written out as matchers over them.  Calls
    to the providers (language model, news search, embedding service,
    vector store) are fields of an environment record; [console] output and
    the HTTP response are threaded through an explicit state. *)

From Stdlib Require Import List NArith ZArith QArith Arith Bool Ascii String Lia.
From Stdlib Require Import DecimalString.
Import ListNotations.
Close Scope Q_scope.

Set Implicit Arguments.

(* ================================================================= *)
(** ** JavaScript strings *)

Module JsString.

(** A string value: its UTF-16 code units. *)
Definition t := list N.

Definition eqb (a b : t) : bool :=
  if list_eq_dec N.eq_dec a b then true else false.

(** Literals are written as in the source file, which is UTF-8: [lit]
    decodes the bytes of a Rocq string to code units (one unit for a
    one-, two- or three-byte sequence, a surrogate pair for a four-byte
    one). *)
Fixpoint utf16_of_utf8 (fuel : nat) (bs : list N) : t :=
  match fuel with
  | O => []
  | S fuel' =>
    match bs with
    | [] => []
    | b0 :: r0 =>
      if (b0 <? 128)%N then b0 :: utf16_of_utf8 fuel' r0
      else if (b0 <? 224)%N then
        match r0 with
        | b1 :: r1 =>
          ((b0 mod 32) * 64 + b1 mod 64)%N :: utf16_of_utf8 fuel' r1
        | _ => [65533%N]
        end
      else if (b0 <? 240)%N then
        match r0 with
        | b1 :: b2 :: r2 =>
          ((b0 mod 16) * 4096 + (b1 mod 64) * 64 + b2 mod 64)%N
            :: utf16_of_utf8 fuel' r2
        | _ => [65533%N]
        end
      else
        match r0 with
        | b1 :: b2 :: b3 :: r3 =>
          let cp := ((b0 mod 8) * 262144 + (b1 mod 64) * 4096
                     + (b2 mod 64) * 64 + b3 mod 64)%N in
          let v := (cp - 65536)%N in
          (55296 + v / 1024)%N :: (56320 + v mod 1024)%N
            :: utf16_of_utf8 fuel' r3
        | _ => [65533%N]
        end
    end
  end.

Definition lit (s : string) : t :=
  let bs := List.map N_of_ascii (list_ascii_of_string s) in
  utf16_of_utf8 (List.length bs) bs.

Definition LF : N := 10.
Definition SPACE : N := 32.
Definition COMMA : N := 44.

(** ECMAScript WhiteSpace and LineTerminator code points: the class [\s]
    of a regular expression, and what [String.prototype.trim] strips. *)
Definition is_space (c : N) : bool :=
  ((9 <=? c) && (c <=? 13) || (c =? 32) || (c =? 160) || (c =? 5760)
   || (8192 <=? c) && (c <=? 8202) || (c =? 8232) || (c =? 8233)
   || (c =? 8239) || (c =? 8287) || (c =? 12288) || (c =? 65279))%N.

(** LineTerminator: what [.] refuses without the [s] flag. *)
Definition is_line_terminator (c : N) : bool :=
  ((c =? 10) || (c =? 13) || (c =? 8232) || (c =? 8233))%N.

Fixpoint drop_while (p : N -> bool) (s : t) : t :=
  match s with
  | [] => []
  | c :: s' => if p c then drop_while p s' else s
  end.

(** [trim()] *)
Definition trim (s : t) : t :=
  rev (drop_while is_space (rev (drop_while is_space s))).

(** [a.join(sep)] on an array of strings *)
Fixpoint join (sep : t) (parts : list t) : t :=
  match parts with
  | [] => []
  | [p] => p
  | p :: rest => p ++ sep ++ join sep rest
  end.

(** [s.startsWith(p)], returning what follows the prefix. *)
Fixpoint strip_prefix (p s : t) : option t :=
  match p with
  | [] => Some s
  | a :: p' =>
    match s with
    | [] => None
    | b :: s' => if (a =? b)%N then strip_prefix p' s' else None
    end
  end.

(** [s.replace(re, repl)] for a global regular expression [re] that never
    matches the empty string and a replacement without [$] patterns.
    [m s'] tries [re] at the start of [s'] and returns what follows the
    match.  The scan restarts after each match and moves one code unit on
    where there is none; [fuel] bounds the number of scan steps. *)
Fixpoint replace_all (m : t -> option t) (repl : t) (fuel : nat) (s : t) : t :=
  match fuel with
  | O => s
  | S fuel' =>
    match m s with
    | Some rest => repl ++ replace_all m repl fuel' rest
    | None =>
      match s with
      | [] => []
      | c :: s' => c :: replace_all m repl fuel' s'
      end
    end
  end.

(** [s.split(/\s+/)]: [cur] holds the current piece, reversed; [in_sep]
    tells that the previous code unit belonged to a separator, which
    [\s+] extends greedily. *)
Fixpoint split_spaces_from (in_sep : bool) (cur : t) (s : t) : list t :=
  match s with
  | [] => [rev cur]
  | c :: s' =>
    if is_space c then
      if in_sep then split_spaces_from true [] s'
      else rev cur :: split_spaces_from true [] s'
    else split_spaces_from false (c :: cur) s'
  end.

Definition split_spaces (s : t) : list t := split_spaces_from false [] s.

(** [s.split('\n')], used to read a text line by line. *)
Fixpoint lines_from (cur : t) (s : t) : list t :=
  match s with
  | [] => [rev cur]
  | c :: s' =>
    if (c =? LF)%N then rev cur :: lines_from [] s'
    else lines_from (c :: cur) s'
  end.

Definition lines (s : t) : list t := lines_from [] s.

End JsString.

Abbreviation jsstring := JsString.t.
Notation "'js' s" := (JsString.lit s) (at level 1, s at level 0, only parsing).

(* ================================================================= *)
(** ** Text cleaning (identical in both variants) *)

Module Clean.
Import JsString.

(** [/<!HS>|<!HE>/] *)
Definition match_marker (s : jsstring) : option jsstring :=
  match strip_prefix (js "<!HS>") s with
  | Some rest => Some rest
  | None => strip_prefix (js "<!HE>") s
  end.

(** [.*?<\/h4>]: the lazy star tries the closing tag first and otherwise
    takes one more code unit, which must not be a line terminator. *)
Fixpoint lazy_dots_then_close (s : jsstring) : option jsstring :=
  match strip_prefix (js "</h4>") s with
  | Some rest => Some rest
  | None =>
    match s with
    | [] => None
    | c :: s' =>
      if is_line_terminator c then None else lazy_dots_then_close s'
    end
  end.

(** [/<h4[^>]*>.*?<\/h4>/].  After [<h4], the greedy [[^>]*] stops at the
    first [>]; giving units back cannot help, since the unit that follows
    would be one that [[^>]] took, not [>]. *)
Definition match_h4 (s : jsstring) : option jsstring :=
  match strip_prefix (js "<h4") s with
  | None => None
  | Some r1 =>
    match drop_while (fun c => negb (c =? 62)%N) r1 with
    | [] => None
    | _ :: r3 => lazy_dots_then_close r3
    end
  end.

(** [/\n+/] *)
Definition match_newlines (s : jsstring) : option jsstring :=
  match s with
  | c :: s' =>
    if (c =? LF)%N then Some (drop_while (fun d => (d =? LF)%N) s') else None
  | [] => None
  end.

Definition removeMarkers (s : jsstring) : jsstring :=
  replace_all match_marker [] (List.length s) s.

Definition removeHeadings (s : jsstring) : jsstring :=
  replace_all match_h4 [] (List.length s) s.

Definition collapseNewlines (s : jsstring) : jsstring :=
  replace_all match_newlines [LF] (List.length s) s.

(** <<
    function cleanText(text) {
        return text.replace(/<!HS>|<!HE>/g, '')
            .replace(/<h4[^>]*>.*?<\/h4>/g, '')
            .replace(/\n+/g, '\n');
    }
    >> *)
Definition cleanText (text : jsstring) : jsstring :=
  collapseNewlines (removeHeadings (removeMarkers text)).

End Clean.

(* ================================================================= *)
(** ** Keyword formatting *)

Module Keywords.
Import JsString.

(** [/,/] *)
Definition match_comma (s : jsstring) : option jsstring :=
  strip_prefix [COMMA] s.

(** The words of a text as the specification describes them: the maximal
    runs of code units that are not white space.  [cur] is the run being
    read, reversed. *)
Fixpoint tokens_from (cur : jsstring) (s : jsstring) : list jsstring :=
  match s with
  | [] => match cur with [] => [] | _ => [rev cur] end
  | c :: s' =>
    if is_space c then
      match cur with
      | [] => tokens_from [] s'
      | _ => rev cur :: tokens_from [] s'
      end
    else tokens_from (c :: cur) s'
  end.

Definition tokens (s : jsstring) : list jsstring := tokens_from [] s.

Definition strip_commas (s : jsstring) : jsstring :=
  filter (fun c => negb (c =? COMMA)%N) s.

(** The specification's words: strip commas, split on white space, keep
    the first two tokens, rejoin with a single space. *)
Definition formatKeywords_spec (keywords : jsstring) : jsstring :=
  join [SPACE] (firstn 2 (tokens (strip_commas keywords))).

End Keywords.

(* ================================================================= *)
(** ** The platform: errors, effects, built-ins *)

Module Js.
Import JsString.

(** What a [throw] or a rejected promise carries.  [HostError] stands for
    the error objects of the providers (a failed HTTP call, the [error]
    field of a store reply), told apart by a code. *)
Inductive exn : Type :=
| TypeError
| ReferenceError (identifier : string)
| URIError
| HostError (code : N).

(** A value read from parsed JSON where the program expects a string. *)
Inductive value : Type :=
| VString (s : jsstring)
| VOther.   (* undefined, null, a number, an object, ... *)

Inductive completion (A : Type) : Type :=
| Ok (a : A)
| Throw (e : exn).
Arguments Ok {A} a.
Arguments Throw {A} e.

(** *** UTF-16 *)

Definition is_high_surrogate (c : N) : bool := ((55296 <=? c) && (c <=? 56319))%N.
Definition is_low_surrogate (c : N) : bool := ((56320 <=? c) && (c <=? 57343))%N.

Definition hex_digit (n : N) : N :=
  (if n <? 10 then 48 + n else 55 + n)%N.

(** [%XX], upper case *)
Definition percent (byte : N) : jsstring :=
  [37%N; hex_digit (byte / 16); hex_digit (byte mod 16)].

Definition utf8_octets (cp : N) : list N :=
  (if cp <? 128 then [cp]
   else if cp <? 2048 then [192 + cp / 64; 128 + cp mod 64]
   else if cp <? 65536 then
     [224 + cp / 4096; 128 + (cp / 64) mod 64; 128 + cp mod 64]
   else
     [240 + cp / 262144; 128 + (cp / 4096) mod 64;
      128 + (cp / 64) mod 64; 128 + cp mod 64])%N.

(** uriUnreserved: letters, digits and [- _ . ! ~ * ' ( )] *)
Definition uri_unreserved (c : N) : bool :=
  ((65 <=? c) && (c <=? 90) || (97 <=? c) && (c <=? 122)
   || (48 <=? c) && (c <=? 57)
   || (c =? 45) || (c =? 95) || (c =? 46) || (c =? 33) || (c =? 126)
   || (c =? 42) || (c =? 39) || (c =? 40) || (c =? 41))%N.

(** [encodeURIComponent(s)]; [None] is the URIError that an unpaired
    surrogate raises. *)
Fixpoint encodeURIComponent (s : jsstring) : option jsstring :=
  match s with
  | [] => Some []
  | c :: s' =>
    if uri_unreserved c then option_map (cons c) (encodeURIComponent s')
    else if is_low_surrogate c then None
    else if is_high_surrogate c then
      match s' with
      | d :: s'' =>
        if is_low_surrogate d then
          let cp := ((c - 55296) * 1024 + (d - 56320) + 65536)%N in
          option_map (app (flat_map percent (utf8_octets cp)))
                     (encodeURIComponent s'')
        else None
      | [] => None
      end
    else
      option_map (app (flat_map percent (utf8_octets c)))
                 (encodeURIComponent s')
  end.

(** A number in a template literal: its decimal digits. *)
Definition number_to_string (n : nat) : jsstring :=
  List.map N_of_ascii
    (list_ascii_of_string (NilEmpty.string_of_uint (Nat.to_uint n))).

(** *** Console and response *)

Record UserRequest : Type := { utterance : jsstring }.

(** [req.body].  The model covers the bodies whose [userRequest] is absent
    or an object holding a string [utterance]. *)
Record RequestBody : Type := { userRequest : option UserRequest }.

Record SimilarityResult : Type := { sr_link : jsstring }.

Inductive logarg : Type :=
| LText (s : string)
| LStr (s : jsstring)
| LNum (n : nat)
| LErr (e : exn)
| LBody (b : RequestBody)
| LDocs (d : option (list SimilarityResult)).

Inductive log_entry : Type :=
| console_log (args : list logarg)
| console_error (args : list logarg).

Inductive ResponseBody : Type :=
| SkillResponse (version : string) (simpleText : jsstring)
| ErrorJson (error : string).

Record HttpResponse : Type := { status : nat; body : ResponseBody }.

Record state : Type := {
  console : list log_entry;
  sent : option HttpResponse
}.

Definition initial : state := {| console := []; sent := None |}.

(** A computation of the request: it may write to the console, send the
    response, and complete normally or by throwing. *)
Definition M (A : Type) : Type := state -> completion A * state.

Definition ret {A} (a : A) : M A := fun st => (Ok a, st).
Definition throw {A} (e : exn) : M A := fun st => (Throw e, st).

Definition bind {A B} (m : M A) (k : A -> M B) : M B :=
  fun st =>
    match m st with
    | (Ok a, st') => k a st'
    | (Throw e, st') => (Throw e, st')
    end.

(** [try { m } catch (error) { h error }] *)
Definition try_catch {A} (m : M A) (h : exn -> M A) : M A :=
  fun st =>
    match m st with
    | (Ok a, st') => (Ok a, st')
    | (Throw e, st') => h e st'
    end.

(** [await p], for a promise that has settled with [c]. *)
Definition await {A} (c : completion A) : M A := fun st => (c, st).

Definition log (args : list logarg) : M unit :=
  fun st =>
    (Ok tt, {| console := console st ++ [console_log args]; sent := sent st |}).

Definition log_error (args : list logarg) : M unit :=
  fun st =>
    (Ok tt, {| console := console st ++ [console_error args]; sent := sent st |}).

(** [res.status(code).send(body)] *)
Definition send (code : nat) (b : ResponseBody) : M unit :=
  fun st =>
    (Ok tt, {| console := console st;
               sent := Some {| status := code; body := b |} |}).

End Js.

Declare Scope prog_scope.
Delimit Scope prog_scope with prog.
Notation "x <- m ;; k" := (Js.bind m (fun x => k))
  (at level 61, m at next level, right associativity) : prog_scope.
Notation "m ;;; k" := (Js.bind m (fun _ => k))
  (at level 61, right associativity) : prog_scope.

(* ================================================================= *)
(** ** Data model and providers *)

Module Model.
Import JsString Js.

(** An embedding vector.  The program only moves vectors around; a
    component stands for the bit pattern of the float. *)
Definition vector := list Z.

Record Article : Type := {
  title : jsstring;
  article : jsstring;
  date : jsstring;
  link : jsstring
}.

Record EmbeddedArticle : Type := {
  e_title : jsstring;
  e_article : jsstring;
  e_date : jsstring;
  e_link : jsstring;
  embedding : vector
}.

(** [{ ...doc, embedding: v }] *)
Definition with_embedding (doc : Article) (v : vector) : EmbeddedArticle :=
  {| e_title := title doc; e_article := article doc; e_date := date doc;
     e_link := link doc; embedding := v |}.

(** The article an embedded article extends. *)
Definition article_of (e : EmbeddedArticle) : Article :=
  {| title := e_title e; article := e_article e; date := e_date e;
     link := e_link e |}.

(** A record of the news search reply.  [DOCID] is the text that the
    template literal renders for the field. *)
Record RawArticle : Type := {
  TITLE : value;
  REDUCE_CONTENTS : value;
  DATE : value;
  DOCID : jsstring
}.

(** [response.data.news_sbs] *)
Inductive NewsField : Type :=
| NewsAbsent                          (* undefined, null or another falsy value *)
| NewsItems (items : list RawArticle) (* an array of records *)
| NewsOther.                          (* a truthy value without [map] *)

(** The [{ data, error }] reply of the store client. *)
Record Reply (D : Type) : Type := { data : option D; error : option exn }.
Arguments data {D} r.
Arguments error {D} r.

(** Which call of [openai.embeddings.create] within one request. *)
Inductive embedding_call : Type :=
| ArticleCall (index : nat)
| QueryCall.

(** The providers, as seen by one request.  Every call is taken to settle:
    [Ok] is a fulfilled promise, [Throw] a rejected one. *)
Record Env : Type := {
  (** [axios.post('https://api.anthropic.com/v1/messages', ...)] for a
      prompt: the [text] fields of [response.data.content] *)
  axios_post : jsstring -> completion (list value);
  (** [axios.get(url)]: [response.data.news_sbs] *)
  axios_get : jsstring -> completion NewsField;
  (** [openai.embeddings.create({ model, input })]: the [embedding]
      fields of [response.data] *)
  openai_embeddings_create : embedding_call -> jsstring -> completion (list vector);
  (** when the promise of the call for article [i] settles *)
  settle_time : nat -> nat;
  (** [supabase.from('news_embeddings').insert(rows)] *)
  supabase_insert : list EmbeddedArticle -> completion (Reply (list EmbeddedArticle));
  (** [supabase.rpc('match_documents', { query_embedding, match_threshold, match_count })] *)
  supabase_rpc_match_documents :
    vector -> Q -> nat -> completion (Reply (list SimilarityResult))
}.

(** [Promise.all(promises)]: rejected with the reason of the promise that
    is rejected first (the smaller index at equal times), fulfilled with
    all the values, in the order of the array, when none is rejected.  The
    second component is the time of the rejection. *)
Fixpoint promise_all_from {A} (time : nat -> nat) (i : nat)
    (promises : list (completion A)) : completion (list A) * nat :=
  match promises with
  | [] => (Ok [], 0)
  | p :: rest =>
    let (r, t) := promise_all_from time (S i) rest in
    match p, r with
    | Ok v, Ok vs => (Ok (v :: vs), 0)
    | Ok _, Throw e' => (Throw e', t)
    | Throw e, Ok _ => (Throw e, time i)
    | Throw e, Throw e' =>
      if t <? time i then (Throw e', t) else (Throw e, time i)
    end
  end.

Definition promise_all {A} (time : nat -> nat)
    (promises : list (completion A)) : completion (list A) :=
  fst (promise_all_from time 0 promises).

(** [array.map((x, i) => f i x)] *)
Fixpoint mapi_from {A B} (f : nat -> A -> B) (i : nat) (l : list A) : list B :=
  match l with
  | [] => []
  | x :: l' => f i x :: mapi_from f (S i) l'
  end.

Definition mapi {A B} (f : nat -> A -> B) (l : list A) : list B :=
  mapi_from f 0 l.

(** [array.map(f)] for a callback that may throw. *)
Fixpoint mapM {A B} (f : A -> M B) (l : list A) : M (list B) :=
  match l with
  | [] => ret []
  | x :: l' => (y <- f x ;; ys <- mapM f l' ;; ret (y :: ys))%prog
  end.

End Model.

(* ================================================================= *)
(** ** The stages both variants share *)

Module Pipeline.
Import JsString Js Model Clean.
Local Open Scope prog_scope.

(** [cleanText(v)] for a value of the reply: [v.replace] exists on strings
    only. *)
Definition cleanText_of (v : value) : M jsstring :=
  match v with
  | VString text => ret (cleanText text)
  | VOther => throw TypeError
  end.

Definition search_url (encoded_query : jsstring) (limit : nat) : jsstring :=
  js "https://searchapi.news.sbs.co.kr/search/news?query=" ++ encoded_query
  ++ js "&collection=news_sbs&offset=0&limit=" ++ number_to_string limit.

Definition to_article (raw : RawArticle) : M Article :=
  t <- cleanText_of (TITLE raw) ;;
  a <- cleanText_of (REDUCE_CONTENTS raw) ;;
  d <- cleanText_of (DATE raw) ;;
  ret {| title := t; article := a; date := d;
         link := js "https://news.sbs.co.kr/news/endPage.do?news_id=" ++ DOCID raw |}.

(** <<
    async function fetchNewsData(query, limit = 40) {   // 20 in part_001
        const url = `https://searchapi.news.sbs.co.kr/search/news?query=${encodeURIComponent(query)}&collection=news_sbs&offset=0&limit=${limit}`;
        try {
            const response = await axios.get(url);
            const articles = response.data.news_sbs || [];
            return articles.map(article => ({
                title: cleanText(article.TITLE),
                article: cleanText(article.REDUCE_CONTENTS),
                date: cleanText(article.DATE),
                link: `https://news.sbs.co.kr/news/endPage.do?news_id=${article.DOCID}`
            })).filter(article => article.title);
        } catch (error) {
            console.error('Error fetching news data:', error);
            return [];
        }
    }
    >> *)
Definition fetchNewsData (default_limit : nat) (env : Env)
    (query : jsstring) (limit : option nat) : M (list Article) :=
  let limit := match limit with Some n => n | None => default_limit end in
  match encodeURIComponent query with
  | None => throw URIError
  | Some q =>
    let url := search_url q limit in
    try_catch
      (response <- await (axios_get env url) ;;
       articles <- match response with
                   | NewsAbsent => ret []
                   | NewsItems items => ret items
                   | NewsOther => throw TypeError
                   end ;;
       mapped <- mapM to_article articles ;;
       ret (filter (fun a => negb (eqb (title a) [])) mapped))
      (fun error =>
         log_error [LText "Error fetching news data:"; LErr error] ;;;
         ret [])
  end.

(** The callback of [documents.map]: one embedding call for the article
    at [index]. *)
Definition embed_document (env : Env) (index : nat) (doc : Article)
    : completion EmbeddedArticle :=
  match openai_embeddings_create env (ArticleCall index) (article doc) with
  | Throw e => Throw e
  | Ok [] => Throw TypeError           (* response.data[0] is undefined *)
  | Ok (v :: _) => Ok (with_embedding doc v)
  end.

(** <<
    async function createEmbeddings(documents) {
        const embeddings = await Promise.all(documents.map(async (doc) => {
            const response = await openai.embeddings.create({
                model: "text-embedding-3-small",
                input: doc.article,
            });
            return { ...doc, embedding: response.data[0].embedding };
        }));
        return embeddings;
    }
    >> *)
Definition createEmbeddings (env : Env) (documents : list Article)
    : M (list EmbeddedArticle) :=
  embeddings <- await (promise_all (settle_time env)
                         (mapi (embed_document env) documents)) ;;
  ret embeddings.

(** <<
    async function findSimilarDocuments(query, k = 5) {
        const queryEmbedding = await openai.embeddings.create({
            model: "text-embedding-3-small",
            input: query,
        });
        const { data, error } = await supabase.rpc('match_documents', {
            query_embedding: queryEmbedding.data[0].embedding,
            match_threshold: 0.78,
            match_count: k
        });
        if (error) console.error('Error finding similar documents:', error);
        return data;
    }
    >> *)
Definition findSimilarDocuments (env : Env) (query : jsstring)
    (k : option nat) : M (option (list SimilarityResult)) :=
  let k := match k with Some n => n | None => 5 end in
  queryEmbedding <- await (openai_embeddings_create env QueryCall query) ;;
  query_embedding <- match queryEmbedding with
                     | [] => throw TypeError
                     | v :: _ => ret v
                     end ;;
  reply <- await (supabase_rpc_match_documents env query_embedding (78 # 100)%Q k) ;;
  match error reply with
  | Some e => log_error [LText "Error finding similar documents:"; LErr e]
  | None => ret tt
  end ;;;
  ret (data reply).

Definition DQUOTE : N := 34.
Definition indent (n : nat) : jsstring := LF :: repeat SPACE n.

(** The template literal of [extractKeywords], before [.trim()]. *)
Definition searchPrompt_template (prompt : jsstring) : jsstring :=
  indent 8 ++ js "사용자 질문: " ++ prompt
  ++ indent 8 ++ js "위 질문에 대한 SBS 뉴스 검색 키워드를 추출하세요:"
  ++ indent 8 ++ js "1. 질문의 핵심 주제와 관련된 키워드 1개 또는 2개 선정"
  ++ indent 8 ++ js "2. 가능한 고유명사 위주로 선별, 없으면 중요 일반명사 선택"
  ++ indent 8 ++ js "3. 사용자 질문에 없는 키워드 추출 금지"
  ++ indent 8 ++ js "4. 불필요한 조사나 일반적인 단어는 제외"
  ++ indent 8 ++ js "출력 형식: 키워드가 1개면 " ++ [DQUOTE] ++ js "키워드1"
  ++ [DQUOTE] ++ js ", 2개면 " ++ [DQUOTE] ++ js "키워드1 키워드2" ++ [DQUOTE]
  ++ indent 4.

Definition searchPrompt (prompt : jsstring) : jsstring :=
  trim (searchPrompt_template prompt).

Definition HEADER : jsstring := js "관련 뉴스 링크:".

End Pipeline.

(* ================================================================= *)
(** ** src/app.js *)

Module AppJs.
Import JsString Js Model Clean Keywords Pipeline.
Local Open Scope prog_scope.

(** <<
    function formatKeywords(keywords) {
        const words = keywords.split(/\s+/).filter(word => word.trim() !== '');
        return words.slice(0, 2).join(' ');
    }
    >> *)
Definition formatKeywords (keywords : jsstring) : jsstring :=
  let words :=
    filter (fun word => negb (eqb (trim word) [])) (split_spaces keywords) in
  join [SPACE] (firstn 2 words).

(** <<
    try {
        const response = await axios.post(...);
        return formatKeywords(response.data.content[0].text);
    } catch (error) {
        console.error('Error calling Claude API:', error);
        return "";
    }
    >> *)
Definition extractKeywords (env : Env) (prompt : jsstring) : M jsstring :=
  try_catch
    (response <- await (axios_post env (searchPrompt prompt)) ;;
     match response with
     | VString text :: _ => ret (formatKeywords text)
     | VOther :: _ => throw TypeError   (* keywords.split is not a function *)
     | [] => throw TypeError            (* content[0] is undefined *)
     end)
    (fun error =>
       log_error [LText "Error calling Claude API:"; LErr error] ;;;
       ret []).

Definition fetchNewsData := Pipeline.fetchNewsData 40.

(** <<
    async function storeEmbeddings(embeddings) {
        const { data, error } = await supabase
            .from('news_embeddings')
            .insert(embeddings);
        if (error) console.error('Error storing embeddings:', error);
        return data;
    }
    >> *)
Definition storeEmbeddings (env : Env) (embeddings : list EmbeddedArticle)
    : M (option (list EmbeddedArticle)) :=
  reply <- await (supabase_insert env embeddings) ;;
  match error reply with
  | Some e => log_error [LText "Error storing embeddings:"; LErr e]
  | None => ret tt
  end ;;;
  ret (data reply).

(** The [text] of the reply:
    ["관련 뉴스 링크:\n" + similarDocuments.map(doc => doc.link).join('\n')] *)
Definition simpleText (similarDocuments : option (list SimilarityResult))
    : M jsstring :=
  match similarDocuments with
  | None => throw TypeError    (* no [map] on undefined or null *)
  | Some docs => ret (HEADER ++ [LF] ++ join [LF] (List.map sr_link docs))
  end.

(** [apiRouter.post('/searchNews', async function (req, res) { ... })] *)
Definition searchNews (env : Env) (req_body : RequestBody) : M unit :=
  log [LBody req_body] ;;;
  userUtterance <- match userRequest req_body with
                   | None => throw TypeError
                   | Some u => ret (utterance u)
                   end ;;
  try_catch
    (keywords <- extractKeywords env userUtterance ;;
     newsData <- fetchNewsData env keywords None ;;
     embeddings <- createEmbeddings env newsData ;;
     storeEmbeddings env embeddings ;;;
     similarDocuments <- findSimilarDocuments env userUtterance None ;;
     text <- simpleText similarDocuments ;;
     send 200 (SkillResponse "2.0" text))
    (fun error =>
       log_error [LText "Error processing request:"; LErr error] ;;;
       send 500 (ErrorJson "Internal Server Error")).

End AppJs.

(* ================================================================= *)
(** ** src/unnamed/part_001 *)

Module Revised.
Import JsString Js Model Clean Keywords Pipeline.
Local Open Scope prog_scope.

(** The names the module binds at top level: its [const] and [function]
    declarations, in the order of the file. *)
Definition declared : list string :=
  ["express"; "axios"; "cheerio"; "OpenAI"; "createClient"; "app"; "logger";
   "apiRouter"; "ANTHROPIC_API_KEY"; "OPENAI_API_KEY"; "SUPABASE_URL";
   "SUPABASE_KEY"; "SUPABASE_SERVICE_ROLE_KEY"; "openai"; "supabase";
   "formatKeywords"; "extractKeywords"; "fetchNewsData"; "cleanText";
   "createEmbeddings"; "storeEmbeddings"; "findSimilarDocuments"]%string.

(** The globals of the runtime that the module refers to. *)
Definition runtime_globals : list string :=
  ["require"; "process"; "console"; "Buffer"; "Promise"; "JSON";
   "encodeURIComponent"]%string.

(** Reading an identifier: a ReferenceError unless a binding exists. *)
Definition resolve (identifier : string) : M unit :=
  if existsb (String.eqb identifier) (declared ++ runtime_globals)
  then ret tt
  else throw (ReferenceError identifier).

(** What encoding a string as UTF-8 and decoding it back yields: an
    unpaired surrogate becomes U+FFFD. *)
Fixpoint utf8_round_trip (s : jsstring) : jsstring :=
  match s with
  | [] => []
  | c :: s' =>
    if is_high_surrogate c then
      match s' with
      | d :: s'' =>
        if is_low_surrogate d then c :: d :: utf8_round_trip s''
        else 65533%N :: utf8_round_trip s'
      | [] => [65533%N]
      end
    else if is_low_surrogate c then 65533%N :: utf8_round_trip s'
    else c :: utf8_round_trip s'
  end.

(** <<
    function formatKeywords(keywords) {
        const words = keywords.replace(/,/g, '').trim().split(/\s+/);
        return words.slice(0, 2).join(' ');
    }
    >> *)
Definition formatKeywords (keywords : jsstring) : jsstring :=
  let words :=
    split_spaces
      (trim (replace_all match_comma [] (List.length keywords) keywords)) in
  join [SPACE] (firstn 2 words).

(** <<
    try {
        const response = await axios.post(...);
        const decodedText = iconv.decode(Buffer.from(response.data.content[0].text, 'utf8'), 'utf8');
        const formattedKeywords = formatKeywords(decodedText);
        console.log('Extracted keywords (decoded):', formattedKeywords);
        return formattedKeywords;
    } catch (error) {
        console.error('Error calling Claude API:', error);
        return "";
    }
    >>
    The callee [iconv.decode] is evaluated before its arguments. *)
Definition extractKeywords (env : Env) (prompt : jsstring) : M jsstring :=
  try_catch
    (response <- await (axios_post env (searchPrompt prompt)) ;;
     resolve "iconv" ;;;
     resolve "Buffer" ;;;
     text <- match response with
             | VString text :: _ => ret text
             | VOther :: _ => throw TypeError
             | [] => throw TypeError
             end ;;
     let decodedText := utf8_round_trip text in
     let formattedKeywords := formatKeywords decodedText in
     log [LText "Extracted keywords (decoded):"; LStr formattedKeywords] ;;;
     ret formattedKeywords)
    (fun error =>
       log_error [LText "Error calling Claude API:"; LErr error] ;;;
       ret []).

Definition fetchNewsData := Pipeline.fetchNewsData 20.

(** <<
    async function storeEmbeddings(embeddings) {
        try {
            const { data, error } = await supabase
                .from('news_embeddings')
                .insert(embeddings);
            if (error) {
                console.error('Error storing embeddings:', error);
                throw error;
            }
            return data;
        } catch (error) {
            console.error('Error in storeEmbeddings:', error);
            throw error;
        }
    }
    >> *)
Definition storeEmbeddings (env : Env) (embeddings : list EmbeddedArticle)
    : M (option (list EmbeddedArticle)) :=
  try_catch
    (reply <- await (supabase_insert env embeddings) ;;
     match error reply with
     | Some e =>
       log_error [LText "Error storing embeddings:"; LErr e] ;;;
       throw e
     | None => ret (data reply)
     end)
    (fun error =>
       log_error [LText "Error in storeEmbeddings:"; LErr error] ;;;
       throw error).

Definition NO_RESULTS : jsstring := js "관련 뉴스를 찾을 수 없습니다.".
Definition APOLOGY : jsstring :=
  js "죄송합니다. 뉴스를 검색하는 중 오류가 발생했습니다.".

(** The [text] of the reply: <<
    similarDocuments && similarDocuments.length > 0
        ? "관련 뉴스 링크:\n" + similarDocuments.map(doc => doc.link).join('\n')
        : "관련 뉴스를 찾을 수 없습니다."
    >> *)
Definition simpleText (similarDocuments : option (list SimilarityResult))
    : jsstring :=
  match similarDocuments with
  | Some ((_ :: _) as docs) => HEADER ++ [LF] ++ join [LF] (List.map sr_link docs)
  | _ => NO_RESULTS
  end.

(** [apiRouter.post('/searchNews', async function (req, res) { ... })] *)
Definition searchNews (env : Env) (req_body : RequestBody) : M unit :=
  log [LText "Received request:"; LBody req_body] ;;;
  userUtterance <- match userRequest req_body with
                   | None => throw TypeError
                   | Some u => ret (utterance u)
                   end ;;
  log [LText "User utterance:"; LStr userUtterance] ;;;
  try_catch
    (keywords <- extractKeywords env userUtterance ;;
     log [LText "Extracted keywords:"; LStr keywords] ;;;
     newsData <- fetchNewsData env keywords None ;;
     log [LText "Fetched news data:"; LNum (List.length newsData); LText "items"] ;;;
     embeddings <- createEmbeddings env newsData ;;
     log [LText "Created embeddings:"; LNum (List.length embeddings); LText "items"] ;;;
     storeEmbeddings env embeddings ;;;
     log [LText "Stored embeddings"] ;;;
     similarDocuments <- findSimilarDocuments env userUtterance None ;;
     log [LText "Similar documents:"; LDocs similarDocuments] ;;;
     send 200 (SkillResponse "2.0" (simpleText similarDocuments)))
    (fun error =>
       log_error [LText "Error processing request:"; LErr error] ;;;
       send 500 (SkillResponse "2.0" APOLOGY)).

End Revised.

(* ================================================================= *)
(** ** Statements about the stages *)

Module Facts.
Import JsString Js Model Clean Keywords Pipeline.
Local Open Scope prog_scope.

(** The state after one more [console.error]. *)
Definition with_error (st : state) (args : list logarg) : state :=
  {| console := console st ++ [console_error args]; sent := sent st |}.

(** What a stage yields, the console left aside. *)
Definition result {A} (m : M A) : completion A := fst (m initial).

(** The URL that [fetchNewsData] requests; none when the query cannot be
    encoded. *)
Definition request_url (default_limit : nat) (query : jsstring)
    (limit : option nat) : option jsstring :=
  option_map
    (fun q => search_url q (match limit with Some n => n | None => default_limit end))
    (encodeURIComponent query).

(** The call [axios.get(url)] that [fetchNewsData] issues for [query] is
    rejected with [e]. *)
Definition transport_call_fails (env : Env) (default_limit : nat)
    (query : jsstring) (limit : option nat) (e : exn) : Prop :=
  exists url, request_url default_limit query limit = Some url
              /\ axios_get env url = Throw e.

(** The bulk insert of [embeddings] reports the failure [e]: in the
    [error] field of its reply, or by a rejected call. *)
Definition write_failure (env : Env) (embeddings : list EmbeddedArticle)
    (e : exn) : Prop :=
  (exists r, supabase_insert env embeddings = Ok r /\ error r = Some e)
  \/ supabase_insert env embeddings = Throw e.

(** An article is the raw record with its three text fields cleaned and
    its link derived from the document id. *)
Definition normalizes (raw : RawArticle) (a : Article) : Prop :=
  exists t b d,
    TITLE raw = VString t /\ REDUCE_CONTENTS raw = VString b
    /\ DATE raw = VString d
    /\ a = {| title := cleanText t; article := cleanText b;
              date := cleanText d;
              link := js "https://news.sbs.co.kr/news/endPage.do?news_id="
                      ++ DOCID raw |}.

(** Call [i] is rejected before every other rejected call of the batch. *)
Definition first_to_fail (env : Env) (documents : list Article) (i : nat)
    : Prop :=
  forall j d e', j <> i -> nth_error documents j = Some d ->
    embed_document env j d = Throw e' ->
    settle_time env i < settle_time env j
    \/ (settle_time env i = settle_time env j /\ i < j).

(** A provider set for the examples: the language model answers
    ["삼성, 전자"], the search returns one titled and one untitled record,
    every embedding call succeeds, the store accepts the rows, and the
    similarity procedure returns the links A and B. *)
Definition sample_env : Env := {|
  axios_post := fun _ => Ok [VString (js "삼성, 전자")];
  axios_get := fun _ =>
    Ok (NewsItems
          [ {| TITLE := VString (js "<!HS>뉴스<!HE>");
               REDUCE_CONTENTS := VString (js "body");
               DATE := VString (js "2024"); DOCID := js "N1" |};
            {| TITLE := VString (js "<!HS><!HE>");
               REDUCE_CONTENTS := VString (js "body");
               DATE := VString (js "2024"); DOCID := js "N2" |} ]);
  openai_embeddings_create := fun _ _ => Ok [[1%Z]];
  settle_time := fun i => i;
  supabase_insert := fun _ => Ok {| data := None; error := None |};
  supabase_rpc_match_documents := fun _ _ _ =>
    Ok {| data := Some [ {| sr_link := js "A" |}; {| sr_link := js "B" |} ];
          error := None |}
|}.

(** The same providers, the store reporting error 7 in its reply. *)
Definition failing_store_env : Env := {|
  axios_post := axios_post sample_env;
  axios_get := axios_get sample_env;
  openai_embeddings_create := openai_embeddings_create sample_env;
  settle_time := settle_time sample_env;
  supabase_insert := fun _ => Ok {| data := None; error := Some (HostError 7) |};
  supabase_rpc_match_documents := supabase_rpc_match_documents sample_env
|}.

(** The same providers, the similarity procedure finding nothing. *)
Definition no_match_env : Env := {|
  axios_post := axios_post sample_env;
  axios_get := axios_get sample_env;
  openai_embeddings_create := openai_embeddings_create sample_env;
  settle_time := settle_time sample_env;
  supabase_insert := supabase_insert sample_env;
  supabase_rpc_match_documents := fun _ _ _ =>
    Ok {| data := Some []; error := None |}
|}.

(** The same providers with the network down for the news search, and the
    second embedding call of a batch failing. *)
Definition offline_env : Env := {|
  axios_post := axios_post sample_env;
  axios_get := fun _ => Throw (HostError 3);
  openai_embeddings_create := fun c _ =>
    match c with
    | ArticleCall 1 => Throw (HostError 5)
    | _ => Ok [[1%Z]]
    end;
  settle_time := settle_time sample_env;
  supabase_insert := supabase_insert sample_env;
  supabase_rpc_match_documents := supabase_rpc_match_documents sample_env
|}.

Definition appended (st : state) (entries : list log_entry) : state :=
  {| console := console st ++ entries; sent := sent st |}.

(** The regular expression behind the matcher [m] matches somewhere in
    [s]. *)
Definition occurs (m : jsstring -> option jsstring) (s : jsstring) : Prop :=
  exists before rest, s = before ++ rest /\ m rest <> None.

(** No two line feeds in a row. *)
Fixpoint single_newlines (s : jsstring) : Prop :=
  match s with
  | a :: (b :: _) as rest => ~ (a = LF /\ b = LF) /\ single_newlines rest
  | _ => True
  end.

(** [trim] without its left part: the text without trailing white space. *)
Definition rtrim (s : jsstring) : jsstring :=
  rev (drop_while is_space (rev s)).

(** A word: not empty, and without white space. *)
Definition spacefree (w : jsstring) : Prop :=
  Forall (fun c => is_space c = false) w.
Definition word (w : jsstring) : Prop := w <> [] /\ spacefree w.

Definition sample_request : RequestBody :=
  {| userRequest := Some {| utterance := js "q" |} |}.

Definition sample_article (n : N) : Article :=
  {| title := [n]; article := [n; n]; date := js "2024"; link := js "L" |}.

End Facts.

(* ================================================================= *)
(** ** Further statements about the code *)

Module Props.
Import JsString Js Model Clean Keywords Pipeline Facts.

(** [a] is [b] with some code units left out. *)
Inductive subsequence : jsstring -> jsstring -> Prop :=
| subsequence_nil : subsequence [] []
| subsequence_keep c a b : subsequence a b -> subsequence (c :: a) (c :: b)
| subsequence_drop c a b : subsequence a b -> subsequence a (c :: b).

(** Nothing but white space and commas. *)
Definition blank (s : jsstring) : Prop :=
  Forall (fun c => is_space c = true \/ c = COMMA) s.

(** An unreserved character of a URI, or the percent sign. *)
Definition escaped (c : N) : Prop := uri_unreserved c = true \/ c = 37%N.

(** Every element is a UTF-16 code unit. *)
Definition code_units (s : jsstring) : Prop :=
  Forall (fun c => (c < 65536)%N) s.

(** No code unit of a surrogate pair, paired or not. *)
Definition no_surrogates (s : jsstring) : Prop :=
  Forall (fun c => is_high_surrogate c = false /\ is_low_surrogate c = false) s.

(** The providers of [env], the embedding calls settling at other times. *)
Definition with_settle_time (env : Env) (time : nat -> nat) : Env :=
  {| axios_post := axios_post env;
     axios_get := axios_get env;
     openai_embeddings_create := openai_embeddings_create env;
     settle_time := time;
     supabase_insert := supabase_insert env;
     supabase_rpc_match_documents := supabase_rpc_match_documents env |}.

(** The providers of [env], the language model replaced. *)
Definition with_language_model (env : Env)
    (post : jsstring -> completion (list value)) : Env :=
  {| axios_post := post;
     axios_get := axios_get env;
     openai_embeddings_create := openai_embeddings_create env;
     settle_time := settle_time env;
     supabase_insert := supabase_insert env;
     supabase_rpc_match_documents := supabase_rpc_match_documents env |}.

(** The stages in the order of the handler, the first failure ending the
    sequence: what the [try] block of part_001 arrives at for the
    similarity results. *)
Definition revised_outcome (env : Env) (userUtterance : jsstring)
    : completion (option (list SimilarityResult)) :=
  match result (Revised.fetchNewsData env [] None) with
  | Throw e => Throw e
  | Ok newsData =>
    match result (createEmbeddings env newsData) with
    | Throw e => Throw e
    | Ok embeddings =>
      match result (Revised.storeEmbeddings env embeddings) with
      | Throw e => Throw e
      | Ok _ => result (findSimilarDocuments env userUtterance None)
      end
    end
  end.

(** The same for src/app.js, down to the text of the reply. *)
Definition appjs_outcome (env : Env) (userUtterance : jsstring)
    : completion jsstring :=
  match result (AppJs.extractKeywords env userUtterance) with
  | Throw e => Throw e
  | Ok keywords =>
    match result (AppJs.fetchNewsData env keywords None) with
    | Throw e => Throw e
    | Ok newsData =>
      match result (createEmbeddings env newsData) with
      | Throw e => Throw e
      | Ok embeddings =>
        match result (AppJs.storeEmbeddings env embeddings) with
        | Throw e => Throw e
        | Ok _ =>
          match result (findSimilarDocuments env userUtterance None) with
          | Throw e => Throw e
          | Ok similarDocuments => result (AppJs.simpleText similarDocuments)
          end
        end
      end
    end
  end.

Definition revised_response (outcome : completion (option (list SimilarityResult)))
    : HttpResponse :=
  match outcome with
  | Ok similarDocuments =>
    {| status := 200;
       body := SkillResponse "2.0" (Revised.simpleText similarDocuments) |}
  | Throw _ => {| status := 500; body := SkillResponse "2.0" Revised.APOLOGY |}
  end.

Definition appjs_response (outcome : completion jsstring) : HttpResponse :=
  match outcome with
  | Ok text => {| status := 200; body := SkillResponse "2.0" text |}
  | Throw _ => {| status := 500; body := ErrorJson "Internal Server Error" |}
  end.

(** A stage settles with the same completion in every state and only adds
    to the console. *)
Definition stage {A} (m : M A) : Prop :=
  forall st, m st = (result m, appended st (console (snd (m initial)))).

(** The similarity procedure replies without data, reporting error 9. *)
Definition rpc_error_env : Env := {|
  axios_post := axios_post sample_env;
  axios_get := axios_get sample_env;
  openai_embeddings_create := openai_embeddings_create sample_env;
  settle_time := settle_time sample_env;
  supabase_insert := supabase_insert sample_env;
  supabase_rpc_match_documents := fun _ _ _ =>
    Ok {| data := None; error := Some (HostError 9) |}
|}.

End Props.

(* ================================================================= *)
(** ** Proofs: the effectful stages *)

Import JsString Js Model Clean Keywords Pipeline Facts Props.
Local Open Scope prog_scope.

Ltac run :=
  unfold bind, try_catch, await, ret, throw, log, log_error, send, with_error;
  simpl.

(** *** Keyword extraction of the revision *)

Lemma iconv_is_unbound :
  Revised.resolve "iconv" = throw (ReferenceError "iconv").
Proof. reflexivity. Qed.

Lemma revised_extractKeywords_run env prompt st :
  Revised.extractKeywords env prompt st =
  (Ok [],
   with_error st
     [LText "Error calling Claude API:";
      LErr match axios_post env (searchPrompt prompt) with
           | Ok _ => ReferenceError "iconv"
           | Throw e => e
           end]).
Proof.
  unfold Revised.extractKeywords. run.
  destruct (axios_post env (searchPrompt prompt)); reflexivity.
Qed.

(** C10.  In the part_001 variant [extractKeywords] returns the empty
    string for every utterance and every reply of the language model,
    also a successful one: reading [iconv] raises a ReferenceError inside
    the [try] block, and the handler that catches transport failures
    catches it, logs it and returns [""]. *)
Theorem revised_extractKeywords_always_empty :
  forall (env : Env) (prompt : jsstring) (st : state),
    Revised.extractKeywords env prompt st =
    (Ok [],
     with_error st
       [LText "Error calling Claude API:";
        LErr match axios_post env (searchPrompt prompt) with
             | Ok _ => ReferenceError "iconv"
             | Throw e => e
             end])
    /\ (forall content, axios_post env (searchPrompt prompt) = Ok content ->
          Revised.extractKeywords env prompt st =
          (Ok [], with_error st [LText "Error calling Claude API:";
                                 LErr (ReferenceError "iconv")])).
Proof.
  intros env prompt st. split; [apply revised_extractKeywords_run|].
  intros content H. rewrite revised_extractKeywords_run. now rewrite H.
Qed.

Lemma revised_extractKeywords_always_empty_witness :
  Revised.extractKeywords sample_env (js "오늘 삼성전자 주가 어때") initial =
  (Ok [], {| console := [console_error [LText "Error calling Claude API:";
                                        LErr (ReferenceError "iconv")]];
             sent := None |})
  /\ AppJs.extractKeywords sample_env (js "오늘 삼성전자 주가 어때") initial =
     (Ok (js "삼성, 전자"), initial).
Proof.
  split; [|vm_compute; reflexivity].
  exact (proj2 (@revised_extractKeywords_always_empty sample_env
                  (js "오늘 삼성전자 주가 어때") initial)
           [VString (js "삼성, 전자")] eq_refl).
Defined.

(** By contrast src/app.js has no decode step and formats the reply. *)
Lemma appjs_extractKeywords_success :
  forall env prompt st text rest,
    axios_post env (searchPrompt prompt) = Ok (VString text :: rest) ->
    AppJs.extractKeywords env prompt st = (Ok (AppJs.formatKeywords text), st).
Proof.
  intros env prompt st text rest H. unfold AppJs.extractKeywords. run.
  rewrite H. reflexivity.
Qed.

(** *** The handler and a body without [userRequest] *)

(** C9.  There is a request body lacking [userRequest.utterance] (the one
    without [userRequest]) on which the handler of either variant ends
    with an uncaught TypeError: the field is read before the [try] block,
    and no response is sent, neither the 200 envelope nor the 500 one. *)
Theorem searchNews_crashes_without_userRequest :
  exists req_body : RequestBody,
    userRequest req_body = None
    /\ forall env : Env,
         AppJs.searchNews env req_body initial =
         (Throw TypeError,
          {| console := [console_log [LBody req_body]]; sent := None |})
         /\ Revised.searchNews env req_body initial =
            (Throw TypeError,
             {| console := [console_log [LText "Received request:"; LBody req_body]];
                sent := None |}).
Proof.
  exists {| userRequest := None |}. split; [reflexivity|].
  intro env. split; reflexivity.
Qed.

(** Three runs of the handler on a well-formed request: the revision with
    two matches and with none, and src/app.js with the news search down
    (the fetcher degrades to no article and the request still succeeds). *)
Example searchNews_end_to_end :
  (exists st,
      Revised.searchNews sample_env sample_request initial = (Ok tt, st)
      /\ sent st = Some {| status := 200;
                           body := SkillResponse "2.0"
                                     (js "관련 뉴스 링크:" ++ [LF] ++ js "A"
                                      ++ [LF] ++ js "B") |})
  /\ (exists st,
        Revised.searchNews no_match_env sample_request initial = (Ok tt, st)
        /\ sent st = Some {| status := 200;
                             body := SkillResponse "2.0" Revised.NO_RESULTS |})
  /\ (exists st,
        AppJs.searchNews offline_env sample_request initial = (Ok tt, st)
        /\ sent st = Some {| status := 200;
                             body := SkillResponse "2.0"
                                       (js "관련 뉴스 링크:" ++ [LF] ++ js "A"
                                        ++ [LF] ++ js "B") |}).
Proof.
  repeat split; eexists; split; vm_compute; reflexivity.
Qed.

(** *** Stages do not read the state *)

Lemma appended_nil st : appended st [] = st.
Proof. destruct st; unfold appended; simpl. now rewrite app_nil_r. Qed.

Lemma cleanText_of_pure v st :
  cleanText_of v st = (fst (cleanText_of v initial), st).
Proof. destruct v; reflexivity. Qed.

Lemma to_article_pure raw st :
  to_article raw st = (fst (to_article raw initial), st).
Proof.
  unfold to_article. run.
  destruct (TITLE raw), (REDUCE_CONTENTS raw), (DATE raw); reflexivity.
Qed.

Lemma mapM_to_article_pure items :
  forall st, mapM to_article items st = (fst (mapM to_article items initial), st).
Proof.
  induction items as [|raw items IH]; intro st; [reflexivity|].
  simpl. unfold bind.
  rewrite (to_article_pure raw st), (to_article_pure raw initial). simpl.
  destruct (fst (to_article raw initial)); [|reflexivity].
  rewrite (IH st), (IH initial). simpl.
  destruct (fst (mapM to_article items initial)); reflexivity.
Qed.

Lemma fetchNewsData_shape d env query limit st :
  fetchNewsData d env query limit st =
  (result (fetchNewsData d env query limit),
   appended st (console (snd (fetchNewsData d env query limit initial)))).
Proof.
  unfold result, fetchNewsData.
  destruct (encodeURIComponent query) as [q|];
    [|unfold throw; simpl; now rewrite appended_nil].
  run. destruct (axios_get env _) as [[| items |]|e]; simpl;
    try (now rewrite appended_nil); try reflexivity.
  rewrite (mapM_to_article_pure items st), (mapM_to_article_pure items initial).
  simpl. destruct (fst (mapM to_article items initial)); simpl;
    try (now rewrite appended_nil); reflexivity.
Qed.

Lemma createEmbeddings_pure env documents st :
  createEmbeddings env documents st =
  (promise_all (settle_time env) (mapi (embed_document env) documents), st).
Proof.
  unfold createEmbeddings. run.
  destruct (promise_all _ _); reflexivity.
Qed.

(** *** The store *)

(** src/app.js: an error in the reply is logged and the reply's data
    returned; only a rejected call raises. *)
Lemma appjs_storeEmbeddings_reply env embeddings st r e :
  supabase_insert env embeddings = Ok r -> error r = Some e ->
  AppJs.storeEmbeddings env embeddings st =
  (Ok (data r), with_error st [LText "Error storing embeddings:"; LErr e]).
Proof.
  intros H He. unfold AppJs.storeEmbeddings. run. rewrite H, He. reflexivity.
Qed.

Lemma revised_storeEmbeddings_failure env embeddings st e :
  write_failure env embeddings e ->
  exists st',
    Revised.storeEmbeddings env embeddings st = (Throw e, st')
    /\ sent st' = sent st
    /\ exists earlier,
         console st' = console st ++ earlier
                       ++ [console_error [LText "Error in storeEmbeddings:"; LErr e]].
Proof.
  intros [[r [H He]]|H]; unfold Revised.storeEmbeddings; run; rewrite H.
  - rewrite He. simpl. eexists. split; [reflexivity|]. split; [reflexivity|].
    simpl. exists [console_error [LText "Error storing embeddings:"; LErr e]].
    now rewrite <- app_assoc.
  - eexists. split; [reflexivity|]. split; [reflexivity|].
    simpl. now exists [].
Qed.

(** C1 (amended).  In the part_001 variant, for every sequence of embedded
    articles, when the bulk insert reports a write failure (in the [error]
    field of its reply or by a rejected call), [storeEmbeddings] logs it
    and fails with that error, and [searchNews], once the earlier stages
    have produced the articles, catches it and replies with HTTP 500 and
    the apology envelope.  In src/app.js an error reported in the reply is
    logged and [storeEmbeddings] returns the reply's data. *)
Theorem storeEmbeddings_write_failure :
  forall (env : Env) (embeddings : list EmbeddedArticle) (e : exn) (st : state),
    write_failure env embeddings e ->
    (exists st',
        Revised.storeEmbeddings env embeddings st = (Throw e, st')
        /\ sent st' = sent st
        /\ exists earlier,
             console st' = console st ++ earlier
               ++ [console_error [LText "Error in storeEmbeddings:"; LErr e]])
    /\ (forall req_body u newsData,
           userRequest req_body = Some u ->
           result (Revised.fetchNewsData env [] None) = Ok newsData ->
           result (createEmbeddings env newsData) = Ok embeddings ->
           exists st',
             Revised.searchNews env req_body initial = (Ok tt, st')
             /\ sent st' = Some {| status := 500;
                                   body := SkillResponse "2.0" Revised.APOLOGY |})
    /\ (forall r, supabase_insert env embeddings = Ok r -> error r = Some e ->
           AppJs.storeEmbeddings env embeddings st =
           (Ok (data r), with_error st [LText "Error storing embeddings:"; LErr e])).
Proof.
  intros env embeddings e st Hfail. split; [|split].
  - now apply revised_storeEmbeddings_failure.
  - intros req_body u newsData Hu Hnews Hemb.
    unfold Revised.searchNews. rewrite Hu.
    unfold bind at 1. unfold log at 1. cbv beta iota.
    unfold bind at 1. unfold ret at 1. cbv beta iota.
    unfold bind at 1. unfold log at 1. cbv beta iota.
    unfold try_catch at 1.
    unfold bind at 1. rewrite revised_extractKeywords_run.
    unfold bind at 1. unfold log at 1. cbv beta iota.
    unfold bind at 1. unfold Revised.fetchNewsData in *.
    rewrite fetchNewsData_shape, Hnews.
    unfold bind at 1. unfold log at 1. cbv beta iota.
    unfold bind at 1. rewrite createEmbeddings_pure.
    unfold result in Hemb. rewrite createEmbeddings_pure in Hemb.
    simpl in Hemb. rewrite Hemb.
    unfold bind at 1. unfold log at 1. cbv beta iota.
    unfold bind at 1.
    match goal with
    | |- context [Revised.storeEmbeddings env embeddings ?s] =>
      destruct (revised_storeEmbeddings_failure s Hfail) as [st' [Hst [Hsent _]]];
      rewrite Hst
    end.
    unfold bind, log_error, send. cbv beta iota.
    eexists. split; reflexivity.
  - intros r H He. now apply appjs_storeEmbeddings_reply.
Qed.

(** C1, the claim as stated, fails on src/app.js: the store reports error
    7 for the (empty) batch, and [storeEmbeddings] completes normally with
    the reply's data after logging. *)
Lemma appjs_storeEmbeddings_swallows_reply_error :
  write_failure failing_store_env [] (HostError 7)
  /\ AppJs.storeEmbeddings failing_store_env [] initial =
     (Ok None,
      {| console := [console_error [LText "Error storing embeddings:";
                                    LErr (HostError 7)]];
         sent := None |})
  /\ exists st,
       AppJs.searchNews failing_store_env sample_request initial = (Ok tt, st)
       /\ sent st = Some {| status := 200;
                            body := SkillResponse "2.0"
                                      (js "관련 뉴스 링크:" ++ [LF] ++ js "A"
                                       ++ [LF] ++ js "B") |}.
Proof.
  split; [left; eexists; split; reflexivity|]. split; [reflexivity|].
  eexists. split; vm_compute; reflexivity.
Qed.

Lemma storeEmbeddings_write_failure_witness :
  exists st',
    Revised.searchNews failing_store_env sample_request initial = (Ok tt, st')
    /\ sent st' = Some {| status := 500;
                          body := SkillResponse "2.0" Revised.APOLOGY |}.
Proof.
  assert (Hfail : forall embeddings,
             write_failure failing_store_env embeddings (HostError 7))
    by (intro; left; eexists; split; reflexivity).
  refine (let embs := _ in
          proj1 (proj2 (@storeEmbeddings_write_failure failing_store_env embs
                          (HostError 7) initial (Hfail embs)))
            sample_request _ _
            eq_refl _ _).
  - vm_compute. reflexivity.
  - vm_compute. reflexivity.
Defined.

(** *** The news fetcher *)

(** The query is encoded outside the [try] block: a query with an unpaired
    surrogate raises URIError, and no request is made. *)
Lemma fetchNewsData_unencodable_query d env query limit st :
  encodeURIComponent query = None ->
  fetchNewsData d env query limit st = (Throw URIError, st).
Proof. intro H. unfold fetchNewsData. now rewrite H. Qed.

(** C6.  For every query string, when the transport call of the news
    search fails, [fetchNewsData] does not raise: it logs the error and
    resolves to the empty sequence (in both variants, whatever the
    limit). *)
Theorem fetchNewsData_transport_failure :
  forall (d : nat) (env : Env) (query : jsstring) (limit : option nat)
         (e : exn) (st : state),
    transport_call_fails env d query limit e ->
    fetchNewsData d env query limit st =
    (Ok [], with_error st [LText "Error fetching news data:"; LErr e]).
Proof.
  intros d env query limit e st [url [Hurl Hget]].
  unfold request_url in Hurl. unfold fetchNewsData.
  destruct (encodeURIComponent query) as [q|]; [|discriminate].
  simpl in Hurl. injection Hurl as Hurl. rewrite Hurl.
  run. rewrite Hget. reflexivity.
Qed.

Lemma fetchNewsData_transport_failure_witness :
  AppJs.fetchNewsData offline_env (js "삼성 전자") None initial =
  (Ok [], {| console := [console_error [LText "Error fetching news data:";
                                        LErr (HostError 3)]];
             sent := None |}).
Proof.
  apply (@fetchNewsData_transport_failure 40 offline_env (js "삼성 전자") None
           (HostError 3) initial).
  eexists. split; reflexivity.
Defined.

Lemma mapM_to_article_ok items :
  forall mapped st st',
    mapM to_article items st = (Ok mapped, st') ->
    Forall2 normalizes items mapped.
Proof.
  induction items as [|raw items IH]; intros mapped st st' H.
  - injection H as <- _. constructor.
  - simpl in H. unfold bind in H. rewrite to_article_pure in H.
    destruct (fst (to_article raw initial)) as [a|] eqn:Ha; [|discriminate].
    destruct (mapM to_article items st) as [[ys|] st1] eqn:Hys; [|discriminate].
    injection H as <- _. constructor; [|eapply IH; eauto].
    unfold to_article in Ha. revert Ha. run.
    destruct (TITLE raw) as [t|] eqn:Ht, (REDUCE_CONTENTS raw) as [b|] eqn:Hb,
             (DATE raw) as [dt|] eqn:Hd; simpl; try discriminate.
    intro Ha. injection Ha as <-. exists t, b, dt. repeat split; assumption.
Qed.

Lemma to_article_normalizes raw a :
  normalizes raw a -> forall st, to_article raw st = (Ok a, st).
Proof.
  intros [t [b [dt [Ht [Hb [Hd Ha]]]]]] st. unfold to_article. run.
  rewrite Ht, Hb, Hd. simpl. now rewrite Ha.
Qed.

Lemma filter_titled_nonempty (l : list Article) :
  Forall (fun a => title a <> [])
         (filter (fun a => negb (eqb (title a) [])) l).
Proof.
  apply Forall_forall. intros a Ha. apply filter_In in Ha as [_ Ha].
  intro Heq. rewrite Heq in Ha. discriminate.
Qed.

(** C7.  For every reply of the news search, [fetchNewsData] returns a
    sequence in which every article has a non-empty title; for a list of
    raw records it is the list of their normalized articles without those
    whose cleaned title is empty, and the empty sequence when a record
    cannot be normalized. *)
Theorem fetchNewsData_drops_untitled :
  forall (d : nat) (env : Env) (query : jsstring) (limit : option nat)
         (st : state) (url : jsstring),
    request_url d query limit = Some url ->
    exists articles st',
      fetchNewsData d env query limit st = (Ok articles, st')
      /\ Forall (fun a => title a <> []) articles
      /\ forall items, axios_get env url = Ok (NewsItems items) ->
           (exists mapped,
               Forall2 normalizes items mapped
               /\ articles = filter (fun a => negb (eqb (title a) [])) mapped
               /\ st' = st)
           \/ (articles = [] /\ ~ exists mapped, Forall2 normalizes items mapped).
Proof.
  intros d env query limit st url Hurl.
  unfold request_url in Hurl. unfold fetchNewsData.
  destruct (encodeURIComponent query) as [q|]; [|discriminate].
  simpl in Hurl. injection Hurl as Hurl. rewrite Hurl. run.
  destruct (axios_get env url) as [[| items |]|e]; simpl.
  - do 2 eexists. split; [reflexivity|]. split; [constructor|]. discriminate.
  - destruct (mapM to_article items st) as [[mapped|e] st1] eqn:Hm; simpl.
    + do 2 eexists. split; [reflexivity|].
      split; [apply filter_titled_nonempty|].
      intros items' Hi. injection Hi as <-. left. exists mapped.
      split; [eapply mapM_to_article_ok; eauto|]. split; [reflexivity|].
      rewrite mapM_to_article_pure in Hm. now injection Hm.
    + do 2 eexists. split; [reflexivity|]. split; [constructor|].
      intros items' Hi. injection Hi as <-. right. split; [reflexivity|].
      intros [mapped Hn].
      assert (Hok : forall s, exists c, mapM to_article items s = (Ok c, s)).
      { clear Hm. induction Hn as [|raw a items mapped Hra Hn IH];
          intro s; [now exists []|].
        destruct (IH s) as [c Hc]. simpl. unfold bind.
        rewrite (to_article_normalizes Hra s), Hc.
        eexists. reflexivity. }
      destruct (Hok st) as [c Hc]. rewrite Hc in Hm. discriminate.
  - do 2 eexists. split; [reflexivity|]. split; [constructor|]. discriminate.
  - do 2 eexists. split; [reflexivity|]. split; [constructor|]. discriminate.
Qed.

Lemma fetchNewsData_drops_untitled_witness :
  exists articles,
    Revised.fetchNewsData sample_env [] None initial = (Ok articles, initial)
    /\ List.map title articles = [js "뉴스"].
Proof.
  destruct (@fetchNewsData_drops_untitled 20 sample_env [] None initial
              (search_url [] 20) eq_refl)
    as [articles [st' [Hrun _]]].
  vm_compute in Hrun. injection Hrun as <- <-.
  eexists. split; vm_compute; reflexivity.
Defined.

(** *** The embedding batch *)

Lemma nth_error_mapi_from {A B} (f : nat -> A -> B) (l : list A) :
  forall k j, nth_error (mapi_from f k l) j = option_map (f (k + j)) (nth_error l j).
Proof.
  induction l as [|x l IH]; intros k j.
  - now destruct j.
  - destruct j as [|j]; simpl.
    + now rewrite Nat.add_0_r.
    + rewrite IH. now rewrite Nat.add_succ_r.
Qed.

Lemma nth_error_map_Ok_Throw {A} (vs : list A) j e :
  nth_error (List.map Ok vs) j <> Some (Throw e).
Proof.
  rewrite nth_error_map. destruct (nth_error vs j); discriminate.
Qed.

(** What [Promise.all] settles with: all the values, or the reason of the
    rejection that comes first. *)
Lemma promise_all_from_spec {A} (time : nat -> nat) (promises : list (completion A)) :
  forall k,
    match promise_all_from time k promises with
    | (Ok vs, _) => promises = List.map Ok vs
    | (Throw e, t) =>
      exists j, nth_error promises j = Some (Throw e)
                /\ t = time (k + j)
                /\ forall j' e', nth_error promises j' = Some (Throw e') ->
                     j' <> j ->
                     t < time (k + j') \/ (t = time (k + j') /\ j < j')
    end.
Proof.
  induction promises as [|p rest IH]; intro k; [reflexivity|].
  simpl. specialize (IH (S k)).
  destruct (promise_all_from time (S k) rest) as [[vs|e'] t];
    destruct p as [v|e].
  - now rewrite IH.
  - exists 0. split; [reflexivity|]. split; [now rewrite Nat.add_0_r|].
    intros [|j'] e1 Hj Hne; [congruence|].
    simpl in Hj. rewrite IH in Hj. now apply nth_error_map_Ok_Throw in Hj.
  - destruct IH as [j [Hj [Ht Hmin]]]. simpl in Ht, Hmin.
    exists (S j). split; [exact Hj|]. split; [now rewrite Nat.add_succ_r|].
    intros [|j'] e1 Hj' Hne; [discriminate|].
    simpl in Hj'. rewrite Nat.add_succ_r.
    destruct (Hmin j' e1 Hj' ltac:(congruence)) as [H|[H1 H2]];
          [now left|right; lia].
  - destruct IH as [j [Hj [Ht Hmin]]]. simpl in Ht, Hmin.
    destruct (t <? time k) eqn:Hlt.
    + apply Nat.ltb_lt in Hlt.
      exists (S j). split; [exact Hj|]. split; [now rewrite Nat.add_succ_r|].
      intros [|j'] e1 Hj' Hne.
      * left. now rewrite Nat.add_0_r.
      * simpl in Hj'. rewrite Nat.add_succ_r.
        destruct (Hmin j' e1 Hj' ltac:(congruence)) as [H|[H1 H2]];
          [now left|right; lia].
    + apply Nat.ltb_ge in Hlt.
      exists 0. split; [reflexivity|]. split; [now rewrite Nat.add_0_r|].
      intros [|j'] e1 Hj' Hne; [congruence|].
      simpl in Hj'. rewrite Nat.add_succ_r.
      destruct (Nat.eq_dec j' j) as [->|Hjj].
      * rewrite <- Ht. lia.
      * destruct (Hmin j' e1 Hj' Hjj) as [H|[H1 H2]]; lia.
Qed.

Lemma embed_call_of_promise env documents j c :
  nth_error (mapi (embed_document env) documents) j = Some c ->
  exists d, nth_error documents j = Some d /\ embed_document env j d = c.
Proof.
  unfold mapi. rewrite nth_error_mapi_from. simpl.
  destruct (nth_error documents j) as [d|]; [|discriminate].
  intro H. injection H as <-. now exists d.
Qed.

(** C5.  The embedding batch is all-or-nothing: for every sequence of
    articles, if the embedding call of one article fails, the whole
    [createEmbeddings] call fails, with the error of a failed call and
    without a list of embedded articles; it fails with that very error
    when the call is the first to fail, as it is when it is the only
    one. *)
Theorem createEmbeddings_all_or_nothing :
  forall (env : Env) (documents : list Article) (i : nat) (doc : Article)
         (e : exn) (st : state),
    nth_error documents i = Some doc ->
    embed_document env i doc = Throw e ->
    (exists e' j d,
        createEmbeddings env documents st = (Throw e', st)
        /\ nth_error documents j = Some d
        /\ embed_document env j d = Throw e')
    /\ (first_to_fail env documents i ->
        createEmbeddings env documents st = (Throw e, st)).
Proof.
  intros env documents i doc e st Hi He.
  assert (Hp : nth_error (mapi (embed_document env) documents) i = Some (Throw e)).
  { unfold mapi. rewrite nth_error_mapi_from, Hi. simpl. now rewrite He. }
  rewrite createEmbeddings_pure. unfold promise_all.
  pose proof (promise_all_from_spec (settle_time env)
                (mapi (embed_document env) documents) 0) as Hspec.
  destruct (promise_all_from (settle_time env) 0 _) as [[vs|e'] t]; simpl.
  - rewrite Hspec in Hp. now apply nth_error_map_Ok_Throw in Hp.
  - destruct Hspec as [j [Hj [Ht Hmin]]]. simpl in Ht, Hmin.
    destruct (embed_call_of_promise _ _ _ Hj) as [d [Hd Hed]].
    split; [now exists e', j, d|].
    intro Hfirst.
    destruct (Nat.eq_dec j i) as [->|Hji]; [congruence|].
    exfalso.
    specialize (Hfirst j d e' Hji Hd Hed).
    assert (Hij : i <> j) by congruence.
    specialize (Hmin i e Hp Hij). lia.
Qed.

Lemma createEmbeddings_all_or_nothing_witness :
  createEmbeddings offline_env
    [sample_article 97; sample_article 98; sample_article 99] initial
  = (Throw (HostError 5), initial).
Proof.
  refine (proj2 (@createEmbeddings_all_or_nothing offline_env
                   [sample_article 97; sample_article 98; sample_article 99]
                   1 (sample_article 98) (HostError 5) initial
                   eq_refl eq_refl) _).
  intros j d e' Hj Hd He'.
  destruct j as [|[|[|j]]]; simpl in Hd.
  - discriminate He'.
  - now contradict Hj.
  - discriminate He'.
  - destruct j; discriminate Hd.
Defined.

Lemma article_of_with_embedding doc v : article_of (with_embedding doc v) = doc.
Proof. now destruct doc. Qed.

Lemma mapi_from_fulfilled env documents :
  forall k embeddings,
    mapi_from (embed_document env) k documents = List.map Ok embeddings ->
    List.map article_of embeddings = documents
    /\ forall j doc, nth_error documents j = Some doc ->
         exists v rest,
           openai_embeddings_create env (ArticleCall (k + j)) (article doc)
           = Ok (v :: rest)
           /\ nth_error embeddings j = Some (with_embedding doc v).
Proof.
  induction documents as [|doc0 documents IH]; intros k embeddings H.
  - destruct embeddings; [|discriminate]. split; [reflexivity|].
    intros [|j] doc Hj; discriminate.
  - destruct embeddings as [|emb embeddings]; [discriminate|].
    simpl in H. injection H as Hhead Htail.
    destruct (IH _ _ Htail) as [Hmap Hnth].
    unfold embed_document in Hhead.
    destruct (openai_embeddings_create env (ArticleCall k) (article doc0))
      as [[|v rest]|e] eqn:Hcall; try discriminate.
    injection Hhead as <-. split.
    + simpl. now rewrite article_of_with_embedding, Hmap.
    + intros [|j] doc Hj; simpl in Hj.
      * injection Hj as <-. exists v, rest. rewrite Nat.add_0_r. now split.
      * rewrite Nat.add_succ_r. now apply Hnth.
Qed.

(** When every call of the batch succeeds, the batch does. *)
Lemma createEmbeddings_succeeds env documents st :
  (forall i doc, nth_error documents i = Some doc ->
     exists emb, embed_document env i doc = Ok emb) ->
  exists embeddings, createEmbeddings env documents st = (Ok embeddings, st).
Proof.
  intro Hall. rewrite createEmbeddings_pure. unfold promise_all.
  pose proof (promise_all_from_spec (settle_time env)
                (mapi (embed_document env) documents) 0) as Hspec.
  destruct (promise_all_from (settle_time env) 0 _) as [[vs|e'] t]; simpl.
  - now exists vs.
  - destruct Hspec as [j [Hj _]].
    destruct (embed_call_of_promise _ _ _ Hj) as [d [Hd Hed]].
    destruct (Hall j d Hd) as [emb Hemb]. congruence.
Qed.

(** C8.  For every sequence of articles on which the batch succeeds,
    [createEmbeddings] returns one embedded article per article, in the
    same order, with title, article, date and link unchanged; the one
    addition is the embedding, the first vector of the reply to the call
    for that article. *)
Theorem createEmbeddings_preserves_articles :
  forall (env : Env) (documents : list Article)
         (embeddings : list EmbeddedArticle) (st st' : state),
    createEmbeddings env documents st = (Ok embeddings, st') ->
    st' = st
    /\ List.length embeddings = List.length documents
    /\ List.map article_of embeddings = documents
    /\ forall i doc, nth_error documents i = Some doc ->
         exists v rest,
           openai_embeddings_create env (ArticleCall i) (article doc)
           = Ok (v :: rest)
           /\ nth_error embeddings i = Some (with_embedding doc v).
Proof.
  intros env documents embeddings st st' H.
  rewrite createEmbeddings_pure in H. injection H as H <-.
  unfold promise_all in H.
  pose proof (promise_all_from_spec (settle_time env)
                (mapi (embed_document env) documents) 0) as Hspec.
  destruct (promise_all_from (settle_time env) 0 _) as [[vs|e'] t];
    simpl in H; [|discriminate].
  injection H as ->.
  destruct (@mapi_from_fulfilled env documents 0 embeddings Hspec) as [Hmap Hnth].
  split; [reflexivity|]. split; [|split; [exact Hmap|exact Hnth]].
  rewrite <- Hmap. now rewrite length_map.
Qed.

Lemma createEmbeddings_preserves_articles_witness :
  exists embeddings,
    createEmbeddings sample_env [sample_article 97; sample_article 98] initial
    = (Ok embeddings, initial)
    /\ List.map article_of embeddings = [sample_article 97; sample_article 98].
Proof.
  eexists. split; [vm_compute; reflexivity|].
  refine (proj1 (proj2 (proj2
            (@createEmbeddings_preserves_articles sample_env
               [sample_article 97; sample_article 98] _ initial initial _)))).
  vm_compute. reflexivity.
Defined.

(** *** The reply text *)

Lemma lines_from_app (t : jsstring) :
  forall cur s, ~ In LF t -> lines_from cur (t ++ s) = lines_from (rev t ++ cur) s.
Proof.
  induction t as [|c t IH]; intros cur s Hno; [reflexivity|].
  simpl. destruct (c =? LF)%N eqn:Hc.
  - apply N.eqb_eq in Hc. exfalso. apply Hno. now left.
  - rewrite IH by (intro H; apply Hno; now right).
    now rewrite <- app_assoc.
Qed.

Lemma lines_from_join (ls : list jsstring) :
  forall l cur, Forall (fun x => ~ In LF x) (l :: ls) ->
    lines_from cur (join [LF] (l :: ls)) = (rev cur ++ l) :: ls.
Proof.
  induction ls as [|l' ls IH]; intros l cur Hall.
  - simpl. rewrite <- (app_nil_r l) at 1.
    rewrite lines_from_app by (now inversion Hall). simpl.
    now rewrite rev_app_distr, rev_involutive.
  - inversion Hall as [|? ? Hl Hrest]; subst.
    change (join [LF] (l :: l' :: ls)) with (l ++ LF :: join [LF] (l' :: ls)).
    rewrite lines_from_app by assumption.
    change (lines_from (rev l ++ cur) (LF :: join [LF] (l' :: ls)))
      with (rev (rev l ++ cur) :: lines_from [] (join [LF] (l' :: ls))).
    rewrite IH by assumption. simpl.
    now rewrite rev_app_distr, rev_involutive.
Qed.

Lemma HEADER_one_line : ~ In LF HEADER.
Proof.
  vm_compute. intros H.
  repeat (destruct H as [H|H]; [discriminate H|]). exact H.
Qed.

Lemma lines_header_links (links : list jsstring) :
  links <> [] -> Forall (fun x => ~ In LF x) links ->
  lines (HEADER ++ [LF] ++ join [LF] links) = HEADER :: links.
Proof.
  intros Hne Hall. destruct links as [|l ls]; [congruence|].
  unfold lines. rewrite lines_from_app by apply HEADER_one_line.
  change (lines_from (rev HEADER ++ []) ([LF] ++ join [LF] (l :: ls)))
    with (rev (rev HEADER ++ []) :: lines_from [] (join [LF] (l :: ls))).
  rewrite lines_from_join by assumption.
  now rewrite app_nil_r, rev_involutive.
Qed.

(** C2 (amended).  In the part_001 variant the reply text is the fixed
    "no results found" message when the sequence of similarity results is
    empty or absent, and otherwise the fixed header line followed by one
    link per line, in the order of the results.  src/app.js has no such
    message: it builds the header and the links for every sequence, also
    the empty one, and an absent sequence raises a TypeError. *)
Theorem simpleText_of_results :
  forall similarDocuments : option (list SimilarityResult),
    ((similarDocuments = None \/ similarDocuments = Some []) ->
       Revised.simpleText similarDocuments = Revised.NO_RESULTS)
    /\ (forall docs, similarDocuments = Some docs -> docs <> [] ->
          Revised.simpleText similarDocuments
          = HEADER ++ [LF] ++ join [LF] (List.map sr_link docs)
          /\ (Forall (fun d => ~ In LF (sr_link d)) docs ->
              lines (Revised.simpleText similarDocuments)
              = HEADER :: List.map sr_link docs))
    /\ (forall docs, similarDocuments = Some docs ->
          AppJs.simpleText similarDocuments
          = ret (HEADER ++ [LF] ++ join [LF] (List.map sr_link docs)))
    /\ (similarDocuments = None ->
          AppJs.simpleText similarDocuments = throw TypeError).
Proof.
  intro similarDocuments. split; [|split; [|split]].
  - intros [->| ->]; reflexivity.
  - intros docs -> Hne. destruct docs as [|d ds]; [congruence|].
    split; [reflexivity|].
    intro Hall. unfold Revised.simpleText.
    apply lines_header_links; [discriminate|].
    apply Forall_map. exact Hall.
  - intros docs ->. reflexivity.
  - intros ->. reflexivity.
Qed.

Lemma simpleText_of_results_witness :
  lines (Revised.simpleText (Some [ {| sr_link := js "A" |}; {| sr_link := js "B" |} ]))
  = [HEADER; js "A"; js "B"].
Proof.
  refine (proj2 (proj1 (proj2 (@simpleText_of_results _)) _ eq_refl _) _).
  - discriminate.
  - repeat constructor; vm_compute;
      intros H; repeat (destruct H as [H|H]; [discriminate H|]); exact H.
Defined.

(** C2, the claim as stated, fails on src/app.js: when the similarity
    procedure finds nothing, the handler replies 200 with the header
    alone, not with a "no results found" message. *)
Lemma appjs_simpleText_has_no_fallback :
  AppJs.simpleText (Some []) initial = (Ok (js "관련 뉴스 링크:" ++ [LF]), initial)
  /\ AppJs.simpleText None initial = (Throw TypeError, initial)
  /\ exists st,
       AppJs.searchNews no_match_env sample_request initial = (Ok tt, st)
       /\ sent st = Some {| status := 200;
                            body := SkillResponse "2.0" (js "관련 뉴스 링크:" ++ [LF]) |}.
Proof.
  split; [reflexivity|]. split; [reflexivity|].
  eexists. split; vm_compute; reflexivity.
Qed.

(* ================================================================= *)
(** ** Proofs: strings *)

Lemma eqb_eq (a b : jsstring) : eqb a b = true <-> a = b.
Proof.
  unfold eqb. destruct (list_eq_dec N.eq_dec a b); split; congruence.
Qed.

Lemma strip_prefix_some (p : jsstring) :
  forall s r, strip_prefix p s = Some r -> s = p ++ r.
Proof.
  induction p as [|a p IH]; intros s r H; simpl in H.
  - now injection H as ->.
  - destruct s as [|b s]; [discriminate|].
    destruct (a =? b)%N eqn:Hab; [|discriminate].
    apply N.eqb_eq in Hab. subst b. simpl. f_equal. now apply IH.
Qed.

Lemma drop_while_length p (s : jsstring) :
  List.length (drop_while p s) <= List.length s.
Proof.
  induction s as [|c s IH]; simpl; [lia|]. destruct (p c); simpl; lia.
Qed.

Lemma drop_while_length_eq p (s : jsstring) :
  List.length (drop_while p s) = List.length s -> drop_while p s = s.
Proof.
  destruct s as [|c s]; simpl; [reflexivity|].
  destruct (p c); [|reflexivity].
  pose proof (drop_while_length p s). lia.
Qed.

Lemma drop_while_head p (s : jsstring) c r :
  drop_while p s = c :: r -> p c = false.
Proof.
  induction s as [|a s IH]; simpl; [discriminate|].
  destruct (p a) eqn:Hp; [exact IH|]. intro H. now injection H as <- _.
Qed.

(** *** Global replacement *)

Section Replace.
Variable m : jsstring -> option jsstring.
Variable repl : jsstring.

(** A match takes at least as many code units as the replacement gives
    back, and as many only when the match is the replacement itself. *)
Hypothesis shrinking :
  forall s r, m s = Some r ->
    List.length r < List.length s
    /\ List.length repl + List.length r <= List.length s
    /\ (List.length repl + List.length r = List.length s -> s = repl ++ r).

(** The fuel [length s] is enough: more changes nothing. *)
Lemma replace_all_fuel :
  forall f1 f2 s, List.length s <= f1 -> List.length s <= f2 ->
    replace_all m repl f1 s = replace_all m repl f2 s.
Proof.
  induction f1 as [|f1 IH]; intros f2 s H1 H2.
  - destruct s; [|simpl in H1; lia].
    destruct f2; [reflexivity|]. simpl.
    destruct (m []) as [r|] eqn:Hm; [|reflexivity].
    apply shrinking in Hm. simpl in Hm. lia.
  - destruct f2 as [|f2].
    + destruct s; [|simpl in H2; lia]. simpl.
      destruct (m []) as [r|] eqn:Hm; [|reflexivity].
      apply shrinking in Hm. simpl in Hm. lia.
    + simpl. destruct (m s) as [r|] eqn:Hm.
      * f_equal. apply shrinking in Hm. apply IH; lia.
      * destruct s as [|c s]; [reflexivity|]. simpl in H1, H2.
        f_equal. apply IH; lia.
Qed.

Lemma replace_all_length :
  forall f s, List.length (replace_all m repl f s) <= List.length s.
Proof.
  induction f as [|f IH]; intro s; simpl; [lia|].
  destruct (m s) as [r|] eqn:Hm.
  - apply shrinking in Hm. rewrite length_app. specialize (IH r). lia.
  - destruct s as [|c s]; simpl; [lia|]. specialize (IH s). lia.
Qed.

Lemma replace_all_length_eq :
  forall f s, List.length (replace_all m repl f s) = List.length s ->
    replace_all m repl f s = s.
Proof.
  induction f as [|f IH]; intro s; simpl; [reflexivity|].
  destruct (m s) as [r|] eqn:Hm.
  - apply shrinking in Hm. destruct Hm as [_ [Hle Heq]].
    rewrite length_app. intro H.
    pose proof (replace_all_length f r).
    rewrite IH by lia. symmetry. apply Heq. lia.
  - destruct s as [|c s]; simpl; [reflexivity|].
    intro H. f_equal. apply IH. lia.
Qed.

Lemma replace_all_no_match :
  forall f s, ~ occurs m s -> replace_all m repl f s = s.
Proof.
  induction f as [|f IH]; intros s Hno; simpl; [reflexivity|].
  destruct (m s) as [r|] eqn:Hm.
  - exfalso. apply Hno. exists [], s. split; [reflexivity|congruence].
  - destruct s as [|c s]; [reflexivity|]. f_equal. apply IH.
    intros [before [rest [Hs Hr]]]. apply Hno.
    exists (c :: before), rest. split; [now rewrite Hs|exact Hr].
Qed.

(** An erased match makes the text shorter. *)
Lemma replace_all_match_shortens :
  forall f s, List.length s <= f -> occurs m s ->
    List.length repl = 0 ->
    List.length (replace_all m repl f s) < List.length s.
Proof.
  induction f as [|f IH]; intros s Hf [before [rest [Hs Hr]]] Hrepl.
  - destruct s; [|simpl in Hf; lia].
    destruct before; [|discriminate]. simpl in Hs. subst rest.
    destruct (m []) as [r|] eqn:Hm; [|congruence].
    apply shrinking in Hm. simpl in Hm. lia.
  - simpl. destruct (m s) as [r|] eqn:Hm.
    + apply shrinking in Hm. rewrite length_app.
      pose proof (replace_all_length f r). lia.
    + destruct before as [|c before]; simpl in Hs.
      * subst rest. congruence.
      * subst s. simpl in *. apply -> Nat.succ_lt_mono.
        apply IH; [lia| |exact Hrepl].
        now exists before, rest.
Qed.
End Replace.

(** *** The three passes of [cleanText] *)

Lemma match_marker_shrinking :
  forall s r, match_marker s = Some r ->
    List.length r < List.length s
    /\ List.length (@nil N) + List.length r <= List.length s
    /\ (List.length (@nil N) + List.length r = List.length s -> s = [] ++ r).
Proof.
  intros s r H. unfold match_marker in H.
  assert (Hlen : List.length s = 5 + List.length r).
  { destruct (strip_prefix (js "<!HS>") s) as [r'|] eqn:H1.
    - injection H as ->. apply strip_prefix_some in H1. subst s.
      now rewrite length_app.
    - apply strip_prefix_some in H. subst s. now rewrite length_app. }
  simpl. lia.
Qed.

Lemma lazy_dots_then_close_cons c s :
  lazy_dots_then_close (c :: s) =
  match strip_prefix (js "</h4>") (c :: s) with
  | Some rest => Some rest
  | None => if is_line_terminator c then None else lazy_dots_then_close s
  end.
Proof. reflexivity. Qed.

Lemma lazy_dots_then_close_length s :
  forall r, lazy_dots_then_close s = Some r -> List.length r < List.length s.
Proof.
  induction s as [|c s IH]; intros r H.
  - discriminate H.
  - rewrite lazy_dots_then_close_cons in H.
    destruct (strip_prefix (js "</h4>") (c :: s)) as [r'|] eqn:Hp.
    + injection H as ->. apply strip_prefix_some in Hp.
      apply (f_equal (@List.length N)) in Hp. rewrite length_app in Hp.
      simpl in *. lia.
    + destruct (is_line_terminator c); [discriminate|].
      simpl. apply IH in H. lia.
Qed.

Lemma match_h4_shrinking :
  forall s r, match_h4 s = Some r ->
    List.length r < List.length s
    /\ List.length (@nil N) + List.length r <= List.length s
    /\ (List.length (@nil N) + List.length r = List.length s -> s = [] ++ r).
Proof.
  intros s r H. unfold match_h4 in H.
  assert (Hlen : List.length r < List.length s).
  { destruct (strip_prefix (js "<h4") s) as [r1|] eqn:H1; [|discriminate].
    apply strip_prefix_some in H1. subst s. rewrite length_app.
    pose proof (drop_while_length (fun c => negb (c =? 62)%N) r1) as Hd.
    destruct (drop_while _ r1) as [|c r3]; [discriminate|].
    apply lazy_dots_then_close_length in H. simpl in *. lia. }
  simpl. lia.
Qed.

Lemma match_newlines_shrinking :
  forall s r, match_newlines s = Some r ->
    List.length r < List.length s
    /\ List.length [LF] + List.length r <= List.length s
    /\ (List.length [LF] + List.length r = List.length s -> s = [LF] ++ r).
Proof.
  intros s r H. destruct s as [|c s]; [discriminate|]. simpl in H.
  destruct (c =? LF)%N eqn:Hc; [|discriminate].
  apply N.eqb_eq in Hc. subst c. injection H as <-.
  pose proof (drop_while_length (fun d => (d =? LF)%N) s) as Hd.
  simpl. repeat split; try lia.
  intro Heq. f_equal. symmetry. apply drop_while_length_eq. lia.
Qed.

Lemma collapse_output :
  forall f s, List.length s <= f ->
    single_newlines (replace_all match_newlines [LF] f s)
    /\ (forall r, replace_all match_newlines [LF] f s = LF :: r ->
          exists s', s = LF :: s').
Proof.
  induction f as [|f IH]; intros s Hf.
  - destruct s; [|simpl in Hf; lia]. simpl. split; [exact I|discriminate].
  - destruct s as [|c s]; [simpl; split; [exact I|discriminate]|].
    simpl in Hf. cbn [replace_all match_newlines].
    destruct (c =? LF)%N eqn:Hc.
    + apply N.eqb_eq in Hc. subst c.
      pose proof (drop_while_length (fun d => (d =? LF)%N) s) as Hd.
      destruct (IH (drop_while (fun d => (d =? LF)%N) s)) as [Hs Hh]; [lia|].
      split; [|intros; now exists s].
      simpl.
      destruct (replace_all match_newlines [LF] f
                  (drop_while (fun d => (d =? LF)%N) s)) as [|b out] eqn:Hout;
        [exact I|].
      split; [|exact Hs].
      intros [_ ->]. destruct (Hh out eq_refl) as [s' Hs'].
      apply drop_while_head in Hs'. discriminate.
    + destruct (IH s) as [Hs Hh]; [lia|].
      apply N.eqb_neq in Hc.
      split; [|intros r Hr; injection Hr as -> _; congruence].
      simpl.
      destruct (replace_all match_newlines [LF] f s) as [|b out]; [exact I|].
      split; [|exact Hs]. intros [-> _]. congruence.
Qed.

Lemma collapse_fixed :
  forall f s, single_newlines s -> replace_all match_newlines [LF] f s = s.
Proof.
  induction f as [|f IH]; intros s Hs; [reflexivity|].
  destruct s as [|c s]; [reflexivity|].
  cbn [replace_all match_newlines].
  assert (Htail : single_newlines s) by (destruct s; [exact I|apply Hs]).
  destruct (c =? LF)%N eqn:Hc.
  - apply N.eqb_eq in Hc. subst c.
    destruct s as [|b s]; [simpl; now rewrite IH|].
    destruct Hs as [Hab _].
    cbn [drop_while]. destruct (b =? LF)%N eqn:Hb.
    + apply N.eqb_eq in Hb. subst b. exfalso. now apply Hab.
    + simpl. now rewrite IH.
  - now rewrite IH.
Qed.

Lemma collapseNewlines_idempotent s :
  collapseNewlines (collapseNewlines s) = collapseNewlines s.
Proof.
  unfold collapseNewlines at 1. apply collapse_fixed.
  unfold collapseNewlines. now apply collapse_output.
Qed.

Lemma removeMarkers_fixed_iff s : removeMarkers s = s <-> ~ occurs match_marker s.
Proof.
  unfold removeMarkers. split.
  - intros Heq Hocc.
    pose proof (@replace_all_match_shortens match_marker [] match_marker_shrinking
                  (List.length s) s (le_n _) Hocc eq_refl) as Hlt.
    rewrite Heq in Hlt. lia.
  - apply replace_all_no_match.
Qed.

Lemma removeHeadings_fixed_iff s : removeHeadings s = s <-> ~ occurs match_h4 s.
Proof.
  unfold removeHeadings. split.
  - intros Heq Hocc.
    pose proof (@replace_all_match_shortens match_h4 [] match_h4_shrinking
                  (List.length s) s (le_n _) Hocc eq_refl) as Hlt.
    rewrite Heq in Hlt. lia.
  - apply replace_all_no_match.
Qed.

(** C4 (amended).  Applying [cleanText] twice yields the same as applying
    it once exactly when the text cleaned once holds no highlight marker
    and no heading block, as in the specification's example; the pass that
    collapses line feeds is idempotent on every input. *)
Theorem cleanText_idempotent_iff :
  forall text : jsstring,
    (cleanText (cleanText text) = cleanText text
     <-> ~ occurs match_marker (cleanText text)
         /\ ~ occurs match_h4 (cleanText text))
    /\ collapseNewlines (collapseNewlines text) = collapseNewlines text.
Proof.
  intro text. split; [|apply collapseNewlines_idempotent].
  set (u := cleanText text). split.
  - intro Heq.
    assert (H1 : List.length (removeMarkers u) <= List.length u)
      by apply (@replace_all_length match_marker [] match_marker_shrinking).
    assert (H2 : List.length (removeHeadings (removeMarkers u))
                 <= List.length (removeMarkers u))
      by apply (@replace_all_length match_h4 [] match_h4_shrinking).
    assert (H3 : List.length (cleanText u)
                 <= List.length (removeHeadings (removeMarkers u)))
      by apply (@replace_all_length match_newlines [LF] match_newlines_shrinking).
    rewrite Heq in H3.
    assert (Hm : removeMarkers u = u)
      by (apply (@replace_all_length_eq match_marker [] match_marker_shrinking);
          fold (removeMarkers u); lia).
    assert (Hh : removeHeadings u = u).
    { rewrite Hm in H2, H3.
      apply (@replace_all_length_eq match_h4 [] match_h4_shrinking).
      fold (removeHeadings u). lia. }
    split; [now apply removeMarkers_fixed_iff|now apply removeHeadings_fixed_iff].
  - intros [Hm Hh].
    apply removeMarkers_fixed_iff in Hm. apply removeHeadings_fixed_iff in Hh.
    unfold cleanText at 1. rewrite Hm, Hh.
    unfold u, cleanText. apply collapseNewlines_idempotent.
Qed.

Lemma cleanText_idempotent_iff_witness :
  cleanText (js "<!HS>뉴스<!HE>


내용") = js "뉴스
내용"
  /\ cleanText (cleanText (js "<!HS>뉴스<!HE>


내용")) = cleanText (js "<!HS>뉴스<!HE>


내용").
Proof.
  split; [vm_compute; reflexivity|].
  apply (proj2 (proj1 (cleanText_idempotent_iff _))).
  split; [apply removeMarkers_fixed_iff|apply removeHeadings_fixed_iff];
    vm_compute; reflexivity.
Defined.

(** C4, the claim as stated, fails: removing the marker inside
    ["<!H<!HS>S>"] leaves the marker ["<!HS>"], which a second application
    removes. *)
Lemma cleanText_not_idempotent :
  cleanText (js "<!H<!HS>S>") = js "<!HS>"
  /\ cleanText (cleanText (js "<!H<!HS>S>")) = []
  /\ cleanText (cleanText (js "<!H<!HS>S>")) <> cleanText (js "<!H<!HS>S>").
Proof.
  split; [vm_compute; reflexivity|]. split; [vm_compute; reflexivity|].
  vm_compute. discriminate.
Qed.

Lemma removeMarkers_fuel f s :
  List.length s <= f -> replace_all match_marker [] f s = removeMarkers s.
Proof.
  intro H. apply (@replace_all_fuel match_marker [] match_marker_shrinking); lia.
Qed.

Lemma removeHeadings_fuel f s :
  List.length s <= f -> replace_all match_h4 [] f s = removeHeadings s.
Proof.
  intro H. apply (@replace_all_fuel match_h4 [] match_h4_shrinking); lia.
Qed.

Lemma collapseNewlines_fuel f s :
  List.length s <= f -> replace_all match_newlines [LF] f s = collapseNewlines s.
Proof.
  intro H.
  apply (@replace_all_fuel match_newlines [LF] match_newlines_shrinking); lia.
Qed.

(** *** Splitting into words *)

Arguments is_space c : simpl never.

Lemma split_spaces_from_cons b cur c s :
  split_spaces_from b cur (c :: s) =
  if is_space c then
    if b then split_spaces_from true [] s
    else rev cur :: split_spaces_from true [] s
  else split_spaces_from false (c :: cur) s.
Proof. reflexivity. Qed.

Lemma tokens_from_cons cur c s :
  tokens_from cur (c :: s) =
  if is_space c then
    match cur with
    | [] => tokens_from [] s
    | _ => rev cur :: tokens_from [] s
    end
  else tokens_from (c :: cur) s.
Proof. reflexivity. Qed.

Lemma rev_cons_not_nil {A} (x : A) l : rev (x :: l) <> [].
Proof. simpl. now destruct (rev l). Qed.

Lemma tokens_from_not_nil s : forall c cur, tokens_from (c :: cur) s <> [].
Proof.
  induction s as [|a s IH]; intros c cur; [discriminate|].
  rewrite tokens_from_cons. destruct (is_space a); [discriminate|apply IH].
Qed.

Lemma strip_commas_replace :
  forall f s, List.length s <= f ->
    replace_all match_comma [] f s = strip_commas s.
Proof.
  induction f as [|f IH]; intros s Hf.
  - destruct s; [reflexivity|simpl in Hf; lia].
  - destruct s as [|c s]; [reflexivity|]. simpl in Hf.
    unfold strip_commas. cbn [replace_all match_comma strip_prefix filter].
    rewrite (N.eqb_sym COMMA c).
    destruct (c =? COMMA)%N; simpl; fold (strip_commas s); rewrite IH by lia;
      reflexivity.
Qed.

Lemma drop_while_app_last p (l : jsstring) c :
  drop_while p (l ++ [c]) =
  match drop_while p l with
  | [] => if p c then [] else [c]
  | r => r ++ [c]
  end.
Proof.
  induction l as [|a l IH]; simpl; [reflexivity|].
  destruct (p a); [exact IH|reflexivity].
Qed.

Lemma rtrim_cons c s :
  rtrim (c :: s) =
  match rtrim s with
  | [] => if is_space c then [] else [c]
  | _ => c :: rtrim s
  end.
Proof.
  unfold rtrim. simpl rev at 2. rewrite drop_while_app_last.
  destruct (drop_while is_space (rev s)) as [|a r].
  - simpl. now destruct (is_space c).
  - rewrite rev_app_distr. simpl rev at 1.
    destruct (rev (a :: r)) eqn:Hr; [now apply rev_cons_not_nil in Hr|].
    reflexivity.
Qed.

Lemma rtrim_nil_tokens s :
  rtrim s = [] ->
  forall cur, tokens_from cur s = match cur with [] => [] | _ => [rev cur] end.
Proof.
  induction s as [|c s IH]; intros H cur; [reflexivity|].
  rewrite rtrim_cons in H. rewrite tokens_from_cons.
  destruct (rtrim s); [|discriminate].
  destruct (is_space c); [|discriminate].
  rewrite (IH eq_refl []). reflexivity.
Qed.

Lemma rtrim_cons_tokens s a r : rtrim s = a :: r -> tokens_from [] s <> [].
Proof.
  revert a r. induction s as [|c s IH]; intros a r H; [discriminate|].
  rewrite rtrim_cons in H. rewrite tokens_from_cons.
  destruct (is_space c); [|apply tokens_from_not_nil].
  destruct (rtrim s) as [|a' r'] eqn:Hs; [discriminate|]. eapply IH; eauto.
Qed.

(** Splitting a text without white space at its ends gives its words;
    splitting what is empty after trimming gives one empty piece. *)
Lemma split_spaces_rtrim s :
  forall b cur,
    (b = true -> cur = []) ->
    (b = false -> cur = [] ->
       match s with c :: _ => is_space c = false | [] => True end) ->
    split_spaces_from b cur (rtrim s) =
    match tokens_from cur s with [] => [[]] | ts => ts end.
Proof.
  induction s as [|c s IH]; intros b cur Hb Hlead.
  - change (rtrim []) with (@nil N). simpl. now destruct cur.
  - rewrite rtrim_cons, tokens_from_cons.
    destruct (rtrim s) as [|a r] eqn:Hs.
    + destruct (is_space c) eqn:Hc.
      * rewrite (rtrim_nil_tokens _ Hs []). simpl. now destruct cur.
      * rewrite (rtrim_nil_tokens _ Hs (c :: cur)).
        rewrite split_spaces_from_cons, Hc. simpl.
        destruct (rev cur ++ [c]) eqn:Hr; [now destruct (rev cur)|reflexivity].
    + pose proof (rtrim_cons_tokens _ Hs) as Hne.
      rewrite split_spaces_from_cons.
      destruct (is_space c) eqn:Hc.
      * rewrite (IH true []) by (intros; try reflexivity; discriminate).
        destruct (tokens_from [] s) as [|t ts] eqn:Ht; [congruence|].
        destruct b.
        -- now rewrite (Hb eq_refl).
        -- destruct cur as [|x cur]; [|reflexivity].
           specialize (Hlead eq_refl eq_refl). simpl in Hlead. congruence.
      * apply IH; intros; discriminate.
Qed.

Lemma tokens_drop_spaces s : tokens (drop_while is_space s) = tokens s.
Proof.
  unfold tokens. induction s as [|c s IH]; [reflexivity|].
  simpl drop_while. rewrite (tokens_from_cons [] c s).
  destruct (is_space c) eqn:Hc; [exact IH|].
  now rewrite tokens_from_cons, Hc.
Qed.

Lemma split_spaces_trim s :
  split_spaces (trim s) = match tokens s with [] => [[]] | ts => ts end.
Proof.
  unfold split_spaces. change (trim s) with (rtrim (drop_while is_space s)).
  rewrite split_spaces_rtrim.
  - fold (tokens (drop_while is_space s)). now rewrite tokens_drop_spaces.
  - discriminate.
  - intros _ _. destruct (drop_while is_space s) as [|c r] eqn:Hd; [exact I|].
    now apply drop_while_head in Hd.
Qed.

Lemma revised_formatKeywords_spec keywords :
  Revised.formatKeywords keywords = formatKeywords_spec keywords.
Proof.
  unfold Revised.formatKeywords, formatKeywords_spec.
  rewrite strip_commas_replace by lia. rewrite split_spaces_trim.
  now destruct (tokens (strip_commas keywords)).
Qed.

(** *** Words and their joining *)

Lemma tokens_from_words s :
  forall cur, spacefree cur -> Forall word (tokens_from cur s).
Proof.
  induction s as [|c s IH]; intros cur Hcur.
  - destruct cur as [|x cur]; [constructor|].
    constructor; [|constructor].
    split; [apply rev_cons_not_nil|now apply Forall_rev].
  - rewrite tokens_from_cons. destruct (is_space c) eqn:Hc.
    + destruct cur as [|x cur]; [now apply IH|].
      constructor; [|apply IH; constructor].
      split; [apply rev_cons_not_nil|now apply Forall_rev].
    + apply IH. now constructor.
Qed.

Lemma tokens_from_chars s :
  forall cur t c, In t (tokens_from cur s) -> In c t -> In c cur \/ In c s.
Proof.
  induction s as [|a s IH]; intros cur t c Ht Hc.
  - destruct cur as [|x cur]; [contradiction|].
    destruct Ht as [<-|[]]. left. now apply in_rev.
  - rewrite tokens_from_cons in Ht. destruct (is_space a).
    + destruct cur as [|x cur].
      * destruct (IH _ _ _ Ht Hc) as [[]|H]. right. now right.
      * destruct Ht as [<-|Ht]; [left; now apply in_rev|].
        destruct (IH _ _ _ Ht Hc) as [[]|H]. right. now right.
    + destruct (IH _ _ _ Ht Hc) as [[->|H]|H].
      * right. now left.
      * now left.
      * right. now right.
Qed.

Lemma tokens_from_app_word t :
  forall cur s, spacefree t ->
    tokens_from cur (t ++ s) = tokens_from (rev t ++ cur) s.
Proof.
  induction t as [|c t IH]; intros cur s Ht; [reflexivity|].
  inversion Ht as [|? ? Hc Ht']; subst.
  simpl app. rewrite tokens_from_cons, Hc, IH by assumption.
  now rewrite <- app_assoc.
Qed.

Lemma space_is_space : is_space SPACE = true.
Proof. reflexivity. Qed.

Lemma tokens_join ts : Forall word ts -> tokens (join [SPACE] ts) = ts.
Proof.
  unfold tokens. induction ts as [|t ts IH]; intro Hall; [reflexivity|].
  inversion Hall as [|? ? [Hne Hsf] Hrest]; subst.
  assert (Hrev : exists x cur, rev t ++ [] = x :: cur).
  { rewrite app_nil_r. destruct (rev t) as [|x cur] eqn:Hr.
    - apply (f_equal (@rev N)) in Hr. rewrite rev_involutive in Hr. now subst t.
    - now exists x, cur. }
  destruct Hrev as [x [cur Hx]].
  assert (Ht : rev (x :: cur) = t).
  { rewrite <- Hx, app_nil_r. apply rev_involutive. }
  destruct ts as [|t' ts].
  - simpl join. rewrite <- (app_nil_r t) at 1.
    rewrite tokens_from_app_word by assumption. rewrite Hx.
    change (tokens_from (x :: cur) []) with [rev (x :: cur)].
    now rewrite Ht.
  - change (join [SPACE] (t :: t' :: ts))
      with (t ++ SPACE :: join [SPACE] (t' :: ts)).
    rewrite tokens_from_app_word by assumption. rewrite Hx.
    rewrite tokens_from_cons, space_is_space, Ht.
    f_equal. now apply IH.
Qed.

Lemma word_head w : word w -> exists c r, w = c :: r /\ is_space c = false.
Proof.
  intros [Hne Hsf]. destruct w as [|c r]; [congruence|].
  exists c, r. split; [reflexivity|]. now inversion Hsf.
Qed.

Lemma trim_fixed x :
  match x with c :: _ => is_space c = false | [] => True end ->
  match rev x with c :: _ => is_space c = false | [] => True end ->
  trim x = x.
Proof.
  intros Hhead Hlast. unfold trim.
  assert (H1 : drop_while is_space x = x).
  { destruct x as [|c r]; [reflexivity|]. simpl. now rewrite Hhead. }
  rewrite H1.
  assert (H2 : drop_while is_space (rev x) = rev x).
  { destruct (rev x) as [|c r]; [reflexivity|]. simpl. now rewrite Hlast. }
  rewrite H2. apply rev_involutive.
Qed.

Lemma word_rev w : word w -> word (rev w).
Proof.
  intros [Hne Hsf]. split; [|now apply Forall_rev].
  intro H. apply (f_equal (@rev N)) in H. rewrite rev_involutive in H.
  now subst w.
Qed.

Lemma trim_word w : spacefree w -> trim w = w.
Proof.
  intro Hsf. apply trim_fixed.
  - destruct w; [exact I|now inversion Hsf].
  - apply Forall_rev in Hsf. destruct (rev w); [exact I|now inversion Hsf].
Qed.

Lemma in_firstn {A} n (l : list A) x : In x (firstn n l) -> In x l.
Proof.
  revert l. induction n as [|n IH]; intros l H; [contradiction|].
  destruct l as [|a l]; [contradiction|].
  destruct H as [->|H]; [now left|right; now apply IH].
Qed.

Lemma forall_firstn {A} (P : A -> Prop) n l : Forall P l -> Forall P (firstn n l).
Proof.
  intro H. apply Forall_forall. intros x Hx.
  apply in_firstn in Hx. revert x Hx. now apply Forall_forall.
Qed.

(** What the first two words of a text, joined by one space, look like. *)
Lemma two_words_joined (y : jsstring) :
  let out := join [SPACE] (firstn 2 (tokens y)) in
  tokens out = firstn 2 (tokens y)
  /\ List.length (tokens out) <= 2
  /\ trim out = out
  /\ out = join [SPACE] (tokens out)
  /\ (forall c, In c out -> c = SPACE \/ In c y).
Proof.
  intro out.
  assert (Hw : Forall word (firstn 2 (tokens y))).
  { apply forall_firstn. unfold tokens. apply tokens_from_words. constructor. }
  assert (Htok : tokens out = firstn 2 (tokens y)) by now apply tokens_join.
  assert (Hsub : forall t c, In t (firstn 2 (tokens y)) -> In c t -> In c y).
  { intros t c Ht Hc. apply in_firstn in Ht.
    now destruct (tokens_from_chars _ _ _ _ Ht Hc) as [[]|H]. }
  split; [exact Htok|]. split; [rewrite Htok; apply firstn_le_length|].
  split; [|split; [now rewrite Htok|]].
  - subst out. destruct (firstn 2 (tokens y)) as [|t1 [|t2 rest]] eqn:Hf.
    + reflexivity.
    + simpl. inversion Hw as [|? ? [_ H1] _]; subst. now apply trim_word.
    + assert (Hlen : List.length (t1 :: t2 :: rest) <= 2)
        by (rewrite <- Hf; apply firstn_le_length).
      destruct rest; [|simpl in Hlen; lia].
      inversion Hw as [|? ? H1 Hw']; subst.
      inversion Hw' as [|? ? H2 _]; subst.
      change (join [SPACE] [t1; t2]) with (t1 ++ SPACE :: t2).
      apply trim_fixed.
      * destruct (word_head H1) as [c [r [-> Hc]]]. exact Hc.
      * rewrite rev_app_distr. simpl.
        destruct (word_head (word_rev H2)) as [c [r [-> Hc]]].
        simpl. exact Hc.
  - intros c Hc. subst out.
    destruct (firstn 2 (tokens y)) as [|t1 [|t2 rest]] eqn:Hf.
    + contradiction.
    + right. apply (Hsub t1 c); [now left|exact Hc].
    + assert (Hlen : List.length (t1 :: t2 :: rest) <= 2)
        by (rewrite <- Hf; apply firstn_le_length).
      destruct rest; [|simpl in Hlen; lia].
      change (join [SPACE] [t1; t2]) with (t1 ++ SPACE :: t2) in Hc.
      apply in_app_or in Hc. destruct Hc as [Hc|[Hc|Hc]].
      * right. apply (Hsub t1 c); [now left|exact Hc].
      * now left.
      * right. apply (Hsub t2 c); [right; now left|exact Hc].
Qed.

Lemma appjs_words s :
  forall b cur, (b = true -> cur = []) -> spacefree cur ->
    filter (fun w => negb (eqb (trim w) [])) (split_spaces_from b cur s)
    = tokens_from cur s.
Proof.
  assert (Hpiece : forall cur, spacefree cur ->
            filter (fun w => negb (eqb (trim w) [])) [rev cur]
            = match cur with [] => [] | _ => [rev cur] end).
  { intros cur Hcur. simpl. rewrite trim_word by now apply Forall_rev.
    destruct cur as [|x cur]; [reflexivity|].
    destruct (eqb (rev (x :: cur)) []) eqn:He; [|reflexivity].
    apply eqb_eq in He. now apply rev_cons_not_nil in He. }
  induction s as [|c s IH]; intros b cur Hb Hcur.
  - now apply Hpiece.
  - rewrite split_spaces_from_cons, tokens_from_cons.
    destruct (is_space c) eqn:Hc.
    + destruct b.
      * rewrite (Hb eq_refl). apply IH; [reflexivity|constructor].
      * change (rev cur :: split_spaces_from true [] s)
          with ([rev cur] ++ split_spaces_from true [] s).
        rewrite filter_app, Hpiece by assumption.
        rewrite IH by (try reflexivity; constructor).
        now destruct cur.
    + apply IH; [discriminate|now constructor].
Qed.

Lemma appjs_formatKeywords_tokens keywords :
  AppJs.formatKeywords keywords = join [SPACE] (firstn 2 (tokens keywords)).
Proof.
  unfold AppJs.formatKeywords, split_spaces.
  rewrite appjs_words by (try discriminate; constructor). reflexivity.
Qed.

(** C3 (amended).  In the part_001 variant, for every input string,
    [formatKeywords] returns the first two white-space-separated tokens of
    the input with its commas removed (all of them when there are fewer),
    joined by a single space: the result has at most two tokens, no comma
    and no white space at its ends.  In src/app.js the same holds except
    that commas are kept: the result is the first two tokens of the input
    itself. *)
Theorem formatKeywords_two_tokens :
  forall keywords : jsstring,
    Revised.formatKeywords keywords = formatKeywords_spec keywords
    /\ tokens (Revised.formatKeywords keywords)
       = firstn 2 (tokens (strip_commas keywords))
    /\ List.length (tokens (Revised.formatKeywords keywords)) <= 2
    /\ ~ In COMMA (Revised.formatKeywords keywords)
    /\ trim (Revised.formatKeywords keywords) = Revised.formatKeywords keywords
    /\ Revised.formatKeywords keywords
       = join [SPACE] (tokens (Revised.formatKeywords keywords))
    /\ AppJs.formatKeywords keywords = join [SPACE] (firstn 2 (tokens keywords))
    /\ List.length (tokens (AppJs.formatKeywords keywords)) <= 2
    /\ trim (AppJs.formatKeywords keywords) = AppJs.formatKeywords keywords.
Proof.
  intro keywords.
  rewrite revised_formatKeywords_spec, appjs_formatKeywords_tokens.
  unfold formatKeywords_spec.
  destruct (two_words_joined (strip_commas keywords))
    as [H1 [H2 [H3 [H4 H5]]]].
  destruct (two_words_joined keywords) as [G1 [G2 [G3 _]]].
  repeat split; try assumption.
  intro Hin. destruct (H5 _ Hin) as [H|H]; [discriminate|].
  unfold strip_commas in H. apply filter_In in H as [_ H].
  now rewrite N.eqb_refl in H.
Qed.

(** C3, the claim as stated, fails on src/app.js: the comma of the
    specification's own example is kept. *)
Lemma appjs_formatKeywords_keeps_commas :
  AppJs.formatKeywords (js "삼성, 전자") = js "삼성, 전자"
  /\ In COMMA (AppJs.formatKeywords (js "삼성, 전자"))
  /\ Revised.formatKeywords (js "삼성, 전자") = js "삼성 전자".
Proof.
  split; [vm_compute; reflexivity|]. split; [|vm_compute; reflexivity].
  vm_compute. right. right. now left.
Qed.

(* ================================================================= *)
(** ** Proofs: further properties of the text functions *)

Lemma subsequence_refl s : subsequence s s.
Proof. induction s; constructor; assumption. Qed.

Lemma subsequence_skip before :
  forall a b, subsequence a b -> subsequence a (before ++ b).
Proof.
  induction before as [|x before IH]; intros a b H; simpl; [|constructor]; auto.
Qed.

Lemma subsequence_app_keep front :
  forall a b, subsequence a b -> subsequence (front ++ a) (front ++ b).
Proof.
  induction front as [|x front IH]; intros a b H; simpl; [|constructor]; auto.
Qed.

Lemma subsequence_trans_aux :
  forall v w, subsequence v w -> forall u, subsequence u v -> subsequence u w.
Proof.
  induction 1 as [|x v w Hvw IH|x v w Hvw IH]; intros u Hab.
  - exact Hab.
  - inversion Hab; subst; constructor; auto.
  - constructor. auto.
Qed.

Lemma subsequence_trans a b c :
  subsequence a b -> subsequence b c -> subsequence a c.
Proof. intros Hab Hbc. now apply (subsequence_trans_aux Hbc). Qed.

Lemma subsequence_length a b : subsequence a b -> List.length a <= List.length b.
Proof. induction 1; simpl; lia. Qed.

Lemma subsequence_In a b c : subsequence a b -> In c a -> In c b.
Proof.
  induction 1 as [|x a b H IH|x a b H IH]; simpl; intro Hin; auto.
  destruct Hin as [->|Hin]; auto.
Qed.

Section ReplaceKeeps.
Variable m : jsstring -> option jsstring.
Variable repl : jsstring.

(** A match starts with the replacement, and what follows the match is
    the end of the text. *)
Hypothesis keeps :
  forall s r, m s = Some r -> exists middle, s = repl ++ middle ++ r.

Lemma replace_all_subsequence :
  forall f s, subsequence (replace_all m repl f s) s.
Proof.
  induction f as [|f IH]; intro s; simpl; [apply subsequence_refl|].
  destruct (m s) as [r|] eqn:Hm.
  - destruct (keeps Hm) as [middle ->].
    apply subsequence_app_keep, subsequence_skip, IH.
  - destruct s as [|c s]; constructor. apply IH.
Qed.
End ReplaceKeeps.

Lemma drop_while_suffix p (s : jsstring) :
  exists before, s = before ++ drop_while p s.
Proof.
  induction s as [|c s [before IH]]; [now exists []|].
  simpl. destruct (p c); [|now exists []].
  exists (c :: before). simpl. now f_equal.
Qed.

Lemma lazy_dots_then_close_suffix s :
  forall r, lazy_dots_then_close s = Some r -> exists before, s = before ++ r.
Proof.
  induction s as [|c s IH]; intros r H; [discriminate H|].
  rewrite lazy_dots_then_close_cons in H.
  destruct (strip_prefix (js "</h4>") (c :: s)) as [r'|] eqn:Hp.
  - injection H as ->. apply strip_prefix_some in Hp. eauto.
  - destruct (is_line_terminator c); [discriminate|].
    destruct (IH _ H) as [before ->]. now exists (c :: before).
Qed.

Lemma match_marker_keeps s r :
  match_marker s = Some r -> exists middle, s = [] ++ middle ++ r.
Proof.
  unfold match_marker. intro H.
  destruct (strip_prefix (js "<!HS>") s) as [r'|] eqn:H1.
  - injection H as ->. apply strip_prefix_some in H1. eauto.
  - apply strip_prefix_some in H. eauto.
Qed.

Lemma match_h4_keeps s r :
  match_h4 s = Some r -> exists middle, s = [] ++ middle ++ r.
Proof.
  unfold match_h4. intro H.
  destruct (strip_prefix (js "<h4") s) as [r1|] eqn:H1; [|discriminate].
  apply strip_prefix_some in H1.
  destruct (drop_while_suffix (fun c => negb (c =? 62)%N) r1) as [b1 H2].
  destruct (drop_while _ r1) as [|c r3]; [discriminate|].
  apply lazy_dots_then_close_suffix in H. destruct H as [b2 ->].
  exists (js "<h4" ++ b1 ++ c :: b2). simpl app at 1.
  rewrite H1, H2. now rewrite <- !app_assoc.
Qed.

Lemma match_newlines_keeps s r :
  match_newlines s = Some r -> exists middle, s = [LF] ++ middle ++ r.
Proof.
  destruct s as [|c s]; [discriminate|]. simpl.
  destruct (c =? LF)%N eqn:Hc; [|discriminate].
  apply N.eqb_eq in Hc. subst c. intro H. injection H as <-.
  destruct (drop_while_suffix (fun d => (d =? LF)%N) s) as [before Hb].
  exists before. now rewrite <- Hb.
Qed.

(** X1.  [cleanText] only deletes: its result is the input with some code
    units left out, in the same order, so it is never longer than the
    input and holds no code unit that the input does not. *)
Theorem cleanText_only_deletes :
  forall text : jsstring,
    subsequence (cleanText text) text
    /\ List.length (cleanText text) <= List.length text
    /\ forall c, In c (cleanText text) -> In c text.
Proof.
  intro text.
  assert (H : subsequence (cleanText text) text).
  { unfold cleanText, collapseNewlines, removeHeadings, removeMarkers.
    eapply subsequence_trans;
      [apply (@replace_all_subsequence match_newlines [LF] match_newlines_keeps)|].
    eapply subsequence_trans;
      [apply (@replace_all_subsequence match_h4 [] match_h4_keeps)|].
    apply (@replace_all_subsequence match_marker [] match_marker_keeps). }
  split; [exact H|]. split; [now apply subsequence_length|].
  intros c. now apply subsequence_In.
Qed.

(** X2.  The result of [cleanText] never holds two line feeds in a row,
    whatever the input. *)
Theorem cleanText_single_newlines :
  forall text : jsstring,
    single_newlines (cleanText text)
    /\ forall before rest, cleanText text <> before ++ LF :: LF :: rest.
Proof.
  intro text.
  assert (H : single_newlines (cleanText text)).
  { unfold cleanText, collapseNewlines. now apply collapse_output. }
  split; [exact H|].
  intros before rest Heq. rewrite Heq in H. clear Heq.
  induction before as [|c before IH].
  - simpl in H. destruct H as [H _]. now apply H.
  - apply IH. simpl in H. destruct (before ++ LF :: LF :: rest); [exact I|apply H].
Qed.

Lemma collapseNewlines_fixed_iff s : collapseNewlines s = s <-> single_newlines s.
Proof.
  split.
  - intro H. rewrite <- H. unfold collapseNewlines. now apply collapse_output.
  - apply collapse_fixed.
Qed.

(** X3.  [cleanText] leaves a text unchanged exactly when the text holds
    no highlight marker, no heading block and no two line feeds in a
    row. *)
Theorem cleanText_fixed_iff :
  forall text : jsstring,
    cleanText text = text
    <-> ~ occurs match_marker text /\ ~ occurs match_h4 text
        /\ single_newlines text.
Proof.
  intro text. split.
  - intro Heq.
    assert (H1 : List.length (removeMarkers text) <= List.length text)
      by apply (@replace_all_length match_marker [] match_marker_shrinking).
    assert (H2 : List.length (removeHeadings (removeMarkers text))
                 <= List.length (removeMarkers text))
      by apply (@replace_all_length match_h4 [] match_h4_shrinking).
    assert (H3 : List.length (cleanText text)
                 <= List.length (removeHeadings (removeMarkers text)))
      by apply (@replace_all_length match_newlines [LF] match_newlines_shrinking).
    rewrite Heq in H3.
    assert (Hm : removeMarkers text = text)
      by (apply (@replace_all_length_eq match_marker [] match_marker_shrinking);
          fold (removeMarkers text); lia).
    rewrite Hm in H2, H3.
    assert (Hh : removeHeadings text = text)
      by (apply (@replace_all_length_eq match_h4 [] match_h4_shrinking);
          fold (removeHeadings text); lia).
    unfold cleanText in Heq. rewrite Hm, Hh in Heq.
    split; [now apply removeMarkers_fixed_iff|].
    split; [now apply removeHeadings_fixed_iff|now apply collapseNewlines_fixed_iff].
  - intros [Hm [Hh Hn]].
    apply removeMarkers_fixed_iff in Hm. apply removeHeadings_fixed_iff in Hh.
    unfold cleanText. rewrite Hm, Hh. now apply collapseNewlines_fixed_iff.
Qed.

(** *** Keyword formatting *)

Lemma strip_commas_fixed s : ~ In COMMA s -> strip_commas s = s.
Proof.
  unfold strip_commas. induction s as [|c s IH]; intro H; [reflexivity|].
  simpl. destruct (c =? COMMA)%N eqn:Hc.
  - apply N.eqb_eq in Hc. exfalso. apply H. now left.
  - simpl. f_equal. apply IH. intro Hin. apply H. now right.
Qed.

Lemma strip_commas_no_comma s : ~ In COMMA (strip_commas s).
Proof.
  unfold strip_commas. intro H. apply filter_In in H as [_ H].
  now rewrite N.eqb_refl in H.
Qed.

Lemma firstn_2_twice {A} (l : list A) : firstn 2 (firstn 2 l) = firstn 2 l.
Proof. destruct l as [|a [|b l]]; reflexivity. Qed.

Lemma spec_no_comma keywords : ~ In COMMA (formatKeywords_spec keywords).
Proof.
  unfold formatKeywords_spec. intro Hin.
  destruct (two_words_joined (strip_commas keywords)) as [_ [_ [_ [_ H]]]].
  destruct (H _ Hin) as [Hc|Hc]; [discriminate|].
  now apply strip_commas_no_comma in Hc.
Qed.

(** X4.  [formatKeywords] is idempotent in both variants: formatting a
    formatted keyword string changes nothing. *)
Theorem formatKeywords_idempotent :
  forall keywords : jsstring,
    Revised.formatKeywords (Revised.formatKeywords keywords)
    = Revised.formatKeywords keywords
    /\ AppJs.formatKeywords (AppJs.formatKeywords keywords)
       = AppJs.formatKeywords keywords.
Proof.
  intro keywords. split.
  - rewrite !revised_formatKeywords_spec.
    unfold formatKeywords_spec at 1.
    rewrite (@strip_commas_fixed _ (spec_no_comma keywords)).
    unfold formatKeywords_spec.
    destruct (two_words_joined (strip_commas keywords)) as [-> _].
    now rewrite firstn_2_twice.
  - rewrite !appjs_formatKeywords_tokens.
    destruct (two_words_joined keywords) as [-> _].
    now rewrite firstn_2_twice.
Qed.

(** X5.  The [formatKeywords] of part_001 is that of src/app.js applied to
    the input without its commas; on an input without a comma the two
    variants return the same string. *)
Theorem formatKeywords_variants :
  forall keywords : jsstring,
    Revised.formatKeywords keywords
    = AppJs.formatKeywords (strip_commas keywords)
    /\ (~ In COMMA keywords ->
        Revised.formatKeywords keywords = AppJs.formatKeywords keywords).
Proof.
  intro keywords.
  assert (H : Revised.formatKeywords keywords
              = AppJs.formatKeywords (strip_commas keywords)).
  { now rewrite revised_formatKeywords_spec, appjs_formatKeywords_tokens. }
  split; [exact H|].
  intro Hno. rewrite H. now rewrite strip_commas_fixed.
Qed.

Lemma formatKeywords_variants_witness :
  Revised.formatKeywords (js "삼성 전자 주가") = AppJs.formatKeywords (js "삼성 전자 주가").
Proof.
  apply (proj2 (formatKeywords_variants (js "삼성 전자 주가"))).
  vm_compute. intro H.
  repeat (destruct H as [H|H]; [discriminate H|]). exact H.
Defined.

Lemma tokens_nil_iff s :
  tokens s = [] <-> Forall (fun c => is_space c = true) s.
Proof.
  unfold tokens. induction s as [|c s IH].
  - split; [constructor|reflexivity].
  - rewrite tokens_from_cons. destruct (is_space c) eqn:Hc.
    + rewrite IH. split; [now constructor|now inversion 1].
    + split.
      * intro H. now apply tokens_from_not_nil in H.
      * inversion 1; congruence.
Qed.

Lemma join_two_words_nil (ts : list jsstring) :
  Forall word ts -> (join [SPACE] (firstn 2 ts) = [] <-> ts = []).
Proof.
  intro Hw. split; [|now intros ->].
  destruct ts as [|t ts]; [reflexivity|].
  inversion Hw as [|? ? [Hne _] _]; subst.
  destruct t as [|c t]; [congruence|].
  destruct ts; discriminate.
Qed.

Lemma strip_commas_spaces_iff s :
  Forall (fun c => is_space c = true) (strip_commas s) <-> blank s.
Proof.
  unfold blank, strip_commas. induction s as [|c s IH].
  - split; constructor.
  - simpl. destruct (c =? COMMA)%N eqn:Hc; simpl.
    + apply N.eqb_eq in Hc. rewrite IH. split.
      * intro H. constructor; [now right|exact H].
      * now inversion 1.
    + apply N.eqb_neq in Hc. split.
      * inversion 1; subst. constructor; [now left|now apply IH].
      * inversion 1 as [|? ? [Hs|Hs] Hrest]; subst; [|congruence].
        constructor; [exact Hs|now apply IH].
Qed.

(** X6.  The keyword string is empty exactly on an input without a word:
    in part_001 when the input holds nothing but white space and commas,
    in src/app.js when it holds nothing but white space. *)
Theorem formatKeywords_empty_iff :
  forall keywords : jsstring,
    (Revised.formatKeywords keywords = [] <-> blank keywords)
    /\ (AppJs.formatKeywords keywords = []
        <-> Forall (fun c => is_space c = true) keywords).
Proof.
  intro keywords. split.
  - rewrite revised_formatKeywords_spec. unfold formatKeywords_spec.
    rewrite join_two_words_nil
      by (unfold tokens; apply tokens_from_words; constructor).
    rewrite tokens_nil_iff. apply strip_commas_spaces_iff.
  - rewrite appjs_formatKeywords_tokens.
    rewrite join_two_words_nil
      by (unfold tokens; apply tokens_from_words; constructor).
    apply tokens_nil_iff.
Qed.

(** *** Keyword extraction of src/app.js *)

(** X7.  In src/app.js [extractKeywords] never raises and never sends a
    response.  Its result has at most two words and no white space at its
    ends; it is the formatted first text of the reply, or, when the call
    is rejected or the reply holds no text, the empty string after one
    logged error. *)
Theorem appjs_extractKeywords_never_raises :
  forall (env : Env) (prompt : jsstring) (st : state),
    exists keywords st',
      AppJs.extractKeywords env prompt st = (Ok keywords, st')
      /\ sent st' = sent st
      /\ List.length (tokens keywords) <= 2
      /\ trim keywords = keywords
      /\ ((exists text rest,
              axios_post env (searchPrompt prompt) = Ok (VString text :: rest)
              /\ keywords = AppJs.formatKeywords text /\ st' = st)
          \/ (keywords = []
              /\ (forall text rest,
                     axios_post env (searchPrompt prompt) <> Ok (VString text :: rest))
              /\ exists e,
                   st' = with_error st [LText "Error calling Claude API:"; LErr e])).
Proof.
  intros env prompt st. unfold AppJs.extractKeywords. run.
  destruct (axios_post env (searchPrompt prompt)) as [[|[text|] rest]|e] eqn:Hpost;
    simpl.
  - exists [], (with_error st [LText "Error calling Claude API:"; LErr TypeError]).
    repeat split; try reflexivity; [simpl; lia|].
    right. repeat split; [discriminate|now exists TypeError].
  - exists (AppJs.formatKeywords text), st.
    rewrite appjs_formatKeywords_tokens.
    destruct (two_words_joined text) as [_ [H2 [H3 _]]].
    repeat split; try assumption.
    left. exists text, rest. repeat split.
    now rewrite appjs_formatKeywords_tokens.
  - exists [], (with_error st [LText "Error calling Claude API:"; LErr TypeError]).
    repeat split; try reflexivity; [simpl; lia|].
    right. repeat split; [discriminate|now exists TypeError].
  - exists [], (with_error st [LText "Error calling Claude API:"; LErr e]).
    repeat split; try reflexivity; [simpl; lia|].
    right. repeat split; [discriminate|now exists e].
Qed.

(** *** The prompt *)

Lemma drop_while_spaces_app ws x :
  Forall (fun c => is_space c = true) ws ->
  drop_while is_space (ws ++ x) = drop_while is_space x.
Proof.
  induction 1 as [|c ws Hc Hws IH]; [reflexivity|]. simpl. now rewrite Hc.
Qed.

Lemma indent_spaces n : Forall (fun c => is_space c = true) (indent n).
Proof.
  unfold indent. constructor; [reflexivity|].
  induction n; simpl; constructor; [reflexivity|assumption].
Qed.

Lemma trim_padded front back core :
  Forall (fun c => is_space c = true) front ->
  Forall (fun c => is_space c = true) back ->
  match core with c :: _ => is_space c = false | [] => False end ->
  match rev core with c :: _ => is_space c = false | [] => False end ->
  trim (front ++ core ++ back) = core.
Proof.
  intros Hf Hb Hhead Hlast. unfold trim.
  rewrite drop_while_spaces_app by assumption.
  assert (H1 : drop_while is_space (core ++ back) = core ++ back).
  { destruct core as [|c core]; [contradiction|]. simpl. now rewrite Hhead. }
  rewrite H1, rev_app_distr.
  rewrite drop_while_spaces_app by now apply Forall_rev.
  destruct (rev core) as [|c r] eqn:Hr; [contradiction|].
  simpl drop_while. rewrite Hlast. rewrite <- Hr. apply rev_involutive.
Qed.

Lemma rtrim_app x y : rtrim y <> [] -> rtrim (x ++ y) = x ++ rtrim y.
Proof.
  intro Hy. induction x as [|c x IH]; [reflexivity|].
  simpl app. rewrite rtrim_cons, IH.
  destruct (x ++ rtrim y) eqn:Hxy; [|reflexivity].
  apply app_eq_nil in Hxy. tauto.
Qed.

Lemma trim_prompt front head prompt rest :
  Forall (fun c => is_space c = true) front ->
  match head with c :: _ => is_space c = false | [] => False end ->
  rtrim rest <> [] ->
  trim (front ++ head ++ prompt ++ rest) = head ++ prompt ++ rtrim rest.
Proof.
  intros Hf Hh Hr.
  change (trim (front ++ head ++ prompt ++ rest))
    with (rtrim (drop_while is_space (front ++ head ++ prompt ++ rest))).
  rewrite drop_while_spaces_app by assumption.
  destruct head as [|c head]; [contradiction|].
  assert (Hd : drop_while is_space ((c :: head) ++ prompt ++ rest)
               = (c :: head) ++ prompt ++ rest)
    by (simpl; now rewrite Hh).
  rewrite Hd, (app_assoc (c :: head) prompt rest), rtrim_app by assumption.
  now rewrite <- app_assoc.
Qed.

(** X8.  The prompt sent to the language model holds the utterance
    verbatim, white space and line feeds included: it is the prompt of the
    empty utterance with the utterance inserted after the eight code units
    of its label; [trim] only removes the padding of the template. *)
Theorem searchPrompt_embeds_utterance :
  forall prompt : jsstring,
    searchPrompt prompt
    = firstn 8 (searchPrompt []) ++ prompt ++ skipn 8 (searchPrompt [])
    /\ firstn 8 (searchPrompt []) = js "사용자 질문: "
    /\ hd_error (skipn 8 (searchPrompt [])) = Some LF.
Proof.
  intro prompt.
  assert (Hshape : forall p,
             searchPrompt p
             = js "사용자 질문: " ++ p ++ skipn 8 (searchPrompt [])).
  { assert (Hgen : exists tail, forall p,
               searchPrompt p = js "사용자 질문: " ++ p ++ tail).
    { unfold searchPrompt, searchPrompt_template.
      eexists. intro p.
      apply trim_prompt;
        [apply indent_spaces|vm_compute; reflexivity|vm_compute; discriminate]. }
    destruct Hgen as [tail Htail]. intro p.
    rewrite (Htail p), (Htail []).
    replace (skipn 8 (js "사용자 질문: " ++ [] ++ tail)) with tail;
      [reflexivity|].
    rewrite skipn_app.
    change (skipn 8 (js "사용자 질문: ")) with (@nil N).
    change (8 - List.length (js "사용자 질문: ")) with 0. reflexivity. }
  split; [|split].
  - rewrite (Hshape prompt) at 1.
    f_equal; try (rewrite (Hshape []); reflexivity).
  - rewrite (Hshape []). reflexivity.
  - vm_compute. reflexivity.
Qed.

(** *** The request URL *)

(** Bounds of the quotients and remainders of the goal, for [lia]. *)
Ltac div_mod_facts :=
  repeat match goal with
  | |- context [(?a / ?b)%N] =>
    lazymatch goal with
    | _ : (b * (a / b) <= a)%N |- _ => fail
    | _ => pose proof (N.Div0.mul_div_le a b)
    end
  | |- context [(?a mod ?b)%N] =>
    lazymatch goal with
    | _ : (a mod b < b)%N |- _ => fail
    | _ => pose proof (N.mod_lt a b ltac:(discriminate))
    end
  end.

Lemma hex_digit_unreserved n : (n < 16)%N -> uri_unreserved (hex_digit n) = true.
Proof.
  intro H.
  assert (Hall : forallb (fun k => uri_unreserved (hex_digit (N.of_nat k)))
                         (seq 0 16) = true) by (vm_compute; reflexivity).
  rewrite forallb_forall in Hall.
  rewrite <- (N2Nat.id n). apply Hall. apply in_seq. lia.
Qed.

Lemma percent_escaped b : (b < 256)%N -> Forall escaped (percent b).
Proof.
  intro H. unfold percent.
  apply Forall_cons; [now right|].
  apply Forall_cons; [left; apply hex_digit_unreserved; div_mod_facts; lia|].
  apply Forall_cons; [left; apply hex_digit_unreserved; div_mod_facts; lia|].
  apply Forall_nil.
Qed.

Lemma utf8_octets_bytes cp :
  (cp < 1114112)%N -> Forall (fun b => (b < 256)%N) (utf8_octets cp).
Proof.
  intro H. unfold utf8_octets.
  destruct (cp <? 128)%N eqn:H1;
    [apply N.ltb_lt in H1; repeat (apply Forall_cons; [div_mod_facts; lia|]); apply Forall_nil|].
  destruct (cp <? 2048)%N eqn:H2;
    [apply N.ltb_lt in H2; repeat (apply Forall_cons; [div_mod_facts; lia|]); apply Forall_nil|].
  destruct (cp <? 65536)%N eqn:H3;
    [apply N.ltb_lt in H3; repeat (apply Forall_cons; [div_mod_facts; lia|]); apply Forall_nil|].
  repeat (apply Forall_cons; [div_mod_facts; lia|]); apply Forall_nil.
Qed.

Lemma octets_escaped cp :
  (cp < 1114112)%N -> Forall escaped (flat_map percent (utf8_octets cp)).
Proof.
  intro H. apply utf8_octets_bytes in H.
  induction H as [|b bs Hb Hbs IH]; [constructor|].
  change (flat_map percent (b :: bs)) with (percent b ++ flat_map percent bs).
  apply Forall_app. split; [now apply percent_escaped|exact IH].
Qed.

Lemma encodeURIComponent_escaped n :
  forall s q, List.length s <= n -> code_units s ->
    encodeURIComponent s = Some q -> Forall escaped q.
Proof.
  induction n as [|n IH]; intros s q Hlen Hcu Henc.
  - destruct s; [|simpl in Hlen; lia]. injection Henc as <-. constructor.
  - destruct s as [|c s]; [injection Henc as <-; constructor|].
    simpl in Hlen. inversion Hcu as [|? ? Hc Hcu']; subst.
    cbn [encodeURIComponent] in Henc.
    destruct (uri_unreserved c) eqn:Hun.
    + destruct (encodeURIComponent s) as [q'|] eqn:Hs; [|discriminate].
      injection Henc as <-. constructor; [now left|].
      apply (IH s); auto. lia.
    + destruct (is_low_surrogate c); [discriminate|].
      destruct (is_high_surrogate c) eqn:Hhigh.
      * destruct s as [|d s]; [discriminate|].
        destruct (is_low_surrogate d) eqn:Hlow; [|discriminate].
        destruct (encodeURIComponent s) as [q'|] eqn:Hs; [|discriminate].
        injection Henc as <-.
        inversion Hcu' as [|? ? Hd Hcu'']; subst.
        apply Forall_app. split.
        -- apply octets_escaped.
           unfold is_high_surrogate in Hhigh. unfold is_low_surrogate in Hlow.
           apply andb_true_iff in Hhigh as [_ Hh2].
           apply andb_true_iff in Hlow as [_ Hl2].
           apply N.leb_le in Hh2. apply N.leb_le in Hl2. lia.
        -- apply (IH s); auto. simpl in Hlen. lia.
      * destruct (encodeURIComponent s) as [q'|] eqn:Hs; [|discriminate].
        injection Henc as <-.
        apply Forall_app. split; [apply octets_escaped; lia|].
        apply (IH s); auto. lia.
Qed.

(** X9.  The query is escaped in the URL that [fetchNewsData] requests:
    for a query of UTF-16 code units, the URL is the fixed address, the
    encoded query, the fixed parameters and the limit, and the encoded
    query holds only unreserved characters and [%], so no [&], [=], [#]
    or space of the query reaches the URL. *)
Theorem request_url_escapes_query :
  forall (d : nat) (query : jsstring) (limit : option nat) (url : jsstring),
    code_units query ->
    request_url d query limit = Some url ->
    exists q,
      url = js "https://searchapi.news.sbs.co.kr/search/news?query=" ++ q
            ++ js "&collection=news_sbs&offset=0&limit="
            ++ number_to_string (match limit with Some n => n | None => d end)
      /\ (forall c, In c q -> uri_unreserved c = true \/ c = 37%N)
      /\ ~ In 38%N q /\ ~ In 61%N q /\ ~ In 35%N q /\ ~ In 32%N q.
Proof.
  intros d query limit url Hcu Hurl. unfold request_url in Hurl.
  destruct (encodeURIComponent query) as [q|] eqn:Henc; [|discriminate].
  cbn [option_map] in Hurl. injection Hurl as Hurl.
  exists q. split; [now rewrite <- Hurl|].
  pose proof (@encodeURIComponent_escaped _ query q (le_n _) Hcu Henc) as Hq.
  rewrite Forall_forall in Hq.
  split; [exact Hq|].
  repeat split; intro Hin; destruct (Hq _ Hin) as [H|H]; discriminate.
Qed.

Lemma request_url_escapes_query_witness :
  exists q,
    request_url 40 (js "a&b=c 삼성") None
    = Some (js "https://searchapi.news.sbs.co.kr/search/news?query=" ++ q
            ++ js "&collection=news_sbs&offset=0&limit=" ++ number_to_string 40)
    /\ ~ In 38%N q.
Proof.
  destruct (@request_url_escapes_query 40 (js "a&b=c 삼성") None _
              ltac:(vm_compute; repeat constructor) eq_refl)
    as [q [Hq [_ [Hamp _]]]].
  exists q. split; [|exact Hamp].
  rewrite <- Hq. reflexivity.
Defined.

(** *** When the fetcher raises *)

Lemma encodeURIComponent_no_surrogates s :
  no_surrogates s -> exists q, encodeURIComponent s = Some q.
Proof.
  induction 1 as [|c s [Hh Hl] Hs [q IH]]; [now exists []|].
  cbn [encodeURIComponent]. rewrite Hh, Hl, IH.
  destruct (uri_unreserved c); simpl; eauto.
Qed.

Lemma fetchNewsData_completes d env query limit st q :
  encodeURIComponent query = Some q ->
  exists articles st',
    fetchNewsData d env query limit st = (Ok articles, st')
    /\ sent st' = sent st.
Proof.
  intro Henc. unfold fetchNewsData. rewrite Henc. run.
  destruct (axios_get env _) as [[| items |]|e]; simpl;
    try (do 2 eexists; split; reflexivity).
  destruct (mapM to_article items st) as [[mapped|e] st1] eqn:Hm; simpl.
  - rewrite mapM_to_article_pure in Hm. injection Hm as _ <-.
    do 2 eexists. split; reflexivity.
  - rewrite mapM_to_article_pure in Hm. injection Hm as _ <-.
    do 2 eexists. split; reflexivity.
Qed.

(** X10.  [fetchNewsData] raises in one case only: when the query cannot
    be encoded, it raises URIError before any request and without a log
    entry.  In every other case it returns a sequence of articles, whatever
    the news search replies, and never sends a response; a query without
    surrogate code units is always such a case. *)
Theorem fetchNewsData_raises_only_URIError :
  forall (d : nat) (env : Env) (query : jsstring) (limit : option nat)
         (st : state),
    ((encodeURIComponent query = None
      /\ fetchNewsData d env query limit st = (Throw URIError, st))
     \/ (exists q articles st',
            encodeURIComponent query = Some q
            /\ fetchNewsData d env query limit st = (Ok articles, st')
            /\ sent st' = sent st))
    /\ (no_surrogates query ->
        exists articles st',
          fetchNewsData d env query limit st = (Ok articles, st')).
Proof.
  intros d env query limit st. split.
  - destruct (encodeURIComponent query) as [q|] eqn:Henc.
    + right. destruct (@fetchNewsData_completes d env query limit st q Henc)
        as [articles [st' [H1 H2]]].
      now exists q, articles, st'.
    + left. split; [reflexivity|]. now apply fetchNewsData_unencodable_query.
  - intro Hns. destruct (encodeURIComponent_no_surrogates Hns) as [q Henc].
    destruct (@fetchNewsData_completes d env query limit st q Henc)
      as [articles [st' [H1 _]]].
    now exists articles, st'.
Qed.

Lemma fetchNewsData_raises_only_URIError_witness :
  AppJs.fetchNewsData offline_env [55357%N] None initial = (Throw URIError, initial)
  /\ exists articles st',
       AppJs.fetchNewsData offline_env (js "삼성") None initial = (Ok articles, st').
Proof.
  split; [reflexivity|].
  apply (proj2 (@fetchNewsData_raises_only_URIError 40 offline_env (js "삼성")
                  None initial)).
  vm_compute. repeat constructor.
Defined.

(* ================================================================= *)
(** ** Proofs: further properties of the stages and of the handler *)

Lemma promise_all_from_fulfilled {A} (time : nat -> nat) (vs : list A) :
  forall k, promise_all_from time k (List.map Ok vs) = (Ok vs, 0).
Proof.
  induction vs as [|v vs IH]; intro k; [reflexivity|].
  simpl. now rewrite IH.
Qed.

Lemma promise_all_fulfilled_iff {A} (time : nat -> nat)
    (promises : list (completion A)) vs :
  promise_all time promises = Ok vs <-> promises = List.map Ok vs.
Proof.
  unfold promise_all. split.
  - intro H. pose proof (promise_all_from_spec time promises 0) as Hspec.
    destruct (promise_all_from time 0 promises) as [[ws|e] t]; simpl in H;
      [|discriminate].
    now injection H as <-.
  - intros ->. now rewrite promise_all_from_fulfilled.
Qed.

Lemma embed_document_ok env i doc emb :
  embed_document env i doc = Ok emb <->
  exists v rest,
    openai_embeddings_create env (ArticleCall i) (article doc) = Ok (v :: rest)
    /\ emb = with_embedding doc v.
Proof.
  unfold embed_document.
  destruct (openai_embeddings_create env (ArticleCall i) (article doc))
    as [[|v rest]|e]; split; try discriminate.
  - intros [v [rest [H _]]]. discriminate H.
  - intro H. injection H as <-. now exists v, rest.
  - intros [v' [rest' [H ->]]]. now injection H as -> _.
  - intros [v' [rest' [H _]]]. discriminate H.
Qed.

(** X11.  [createEmbeddings] succeeds exactly when the call of every
    article returns at least one vector; in particular it succeeds on the
    empty sequence, with no embedded article. *)
Theorem createEmbeddings_succeeds_iff :
  forall (env : Env) (documents : list Article) (st : state),
    ((exists embeddings,
         createEmbeddings env documents st = (Ok embeddings, st))
     <-> (forall i doc, nth_error documents i = Some doc ->
            exists v rest,
              openai_embeddings_create env (ArticleCall i) (article doc)
              = Ok (v :: rest)))
    /\ createEmbeddings env [] st = (Ok [], st).
Proof.
  intros env documents st. split; [|reflexivity]. split.
  - intros [embeddings H] i doc Hi.
    rewrite createEmbeddings_pure in H. injection H as H.
    apply promise_all_fulfilled_iff in H.
    destruct (@mapi_from_fulfilled env documents 0 embeddings H) as [_ Hnth].
    destruct (Hnth i doc Hi) as [v [rest [Hcall _]]]. now exists v, rest.
  - intro Hall. apply createEmbeddings_succeeds.
    intros i doc Hi. destruct (Hall i doc Hi) as [v [rest Hcall]].
    exists (with_embedding doc v). apply embed_document_ok. now exists v, rest.
Qed.

(** X12.  The order in which the embedding calls settle changes neither
    whether [createEmbeddings] succeeds nor the embedded articles it
    returns; when it fails, it fails under every order (the order only
    decides which error is reported). *)
Theorem createEmbeddings_order_independent :
  forall (env : Env) (time : nat -> nat) (documents : list Article) (st : state),
    (forall embeddings,
        createEmbeddings env documents st = (Ok embeddings, st)
        <-> createEmbeddings (with_settle_time env time) documents st
            = (Ok embeddings, st))
    /\ ((exists e, createEmbeddings env documents st = (Throw e, st))
        <-> (exists e, createEmbeddings (with_settle_time env time) documents st
                       = (Throw e, st))).
Proof.
  intros env time documents st.
  assert (Hok : forall t1 t2 embeddings,
             promise_all t1 (mapi (embed_document env) documents) = Ok embeddings
             -> promise_all t2 (mapi (embed_document env) documents) = Ok embeddings).
  { intros t1 t2 embeddings H. apply promise_all_fulfilled_iff.
    now apply promise_all_fulfilled_iff in H. }
  assert (Hthrow : forall t1 t2 e,
             promise_all t1 (mapi (embed_document env) documents) = Throw e
             -> exists e', promise_all t2 (mapi (embed_document env) documents)
                           = Throw e').
  { intros t1 t2 e H.
    destruct (promise_all t2 (mapi (embed_document env) documents))
      as [vs|e'] eqn:H2; [|now exists e'].
    apply (Hok t2 t1) in H2. congruence. }
  rewrite !createEmbeddings_pure.
  change (mapi (embed_document (with_settle_time env time)) documents)
    with (mapi (embed_document env) documents).
  change (settle_time (with_settle_time env time)) with time.
  split.
  - intro embeddings. split; intro H; injection H as H; f_equal;
      eapply Hok; eauto.
  - split; intros [e H]; injection H as H.
    + destruct (Hthrow _ time _ H) as [e' He'].
      exists e'. f_equal. exact He'.
    + destruct (Hthrow _ (settle_time env) _ H) as [e' He'].
      exists e'. f_equal. exact He'.
Qed.

(** The error that is reported does depend on the order: with the calls
    of the first and of the second article failing, the batch reports the
    one that settles first. *)
Example createEmbeddings_error_depends_on_order :
  let env := {| axios_post := axios_post sample_env;
                axios_get := axios_get sample_env;
                openai_embeddings_create := fun c _ =>
                  match c with
                  | ArticleCall 0 => Throw (HostError 4)
                  | ArticleCall 1 => Throw (HostError 5)
                  | _ => Ok [[1%Z]]
                  end;
                settle_time := fun i => i;
                supabase_insert := supabase_insert sample_env;
                supabase_rpc_match_documents :=
                  supabase_rpc_match_documents sample_env |} in
  let documents := [sample_article 97; sample_article 98] in
  createEmbeddings env documents initial = (Throw (HostError 4), initial)
  /\ createEmbeddings (with_settle_time env (fun i => 5 - i)) documents initial
     = (Throw (HostError 5), initial).
Proof. split; reflexivity. Qed.

(** *** Running the handler *)

Lemma stage_fetchNewsData d env query limit :
  stage (fetchNewsData d env query limit).
Proof. intro st. apply fetchNewsData_shape. Qed.

Lemma stage_createEmbeddings env documents : stage (createEmbeddings env documents).
Proof.
  intro st. unfold result. rewrite !createEmbeddings_pure. simpl.
  now rewrite appended_nil.
Qed.

Lemma stage_appjs_storeEmbeddings env embeddings :
  stage (AppJs.storeEmbeddings env embeddings).
Proof.
  intro st. unfold result, AppJs.storeEmbeddings. run.
  destruct (supabase_insert env embeddings) as [[d [e|]]|e]; simpl;
    try (now rewrite appended_nil); reflexivity.
Qed.

Lemma stage_revised_storeEmbeddings env embeddings :
  stage (Revised.storeEmbeddings env embeddings).
Proof.
  intro st. unfold result, Revised.storeEmbeddings. run.
  destruct (supabase_insert env embeddings) as [[d [e|]]|e]; simpl;
    try (now rewrite appended_nil); unfold appended; simpl;
    now rewrite <- ?app_assoc.
Qed.

Lemma stage_findSimilarDocuments env query k :
  stage (findSimilarDocuments env query k).
Proof.
  intro st. unfold result, findSimilarDocuments. run.
  destruct (openai_embeddings_create env QueryCall query) as [[|v rest]|e];
    simpl; try (now rewrite appended_nil).
  destruct (supabase_rpc_match_documents env v _ _) as [[d [e|]]|e]; simpl;
    try (now rewrite appended_nil); reflexivity.
Qed.

Lemma stage_appjs_extractKeywords env prompt :
  stage (AppJs.extractKeywords env prompt).
Proof.
  intro st. unfold result, AppJs.extractKeywords. run.
  destruct (axios_post env (searchPrompt prompt)) as [[|[text|] rest]|e]; simpl;
    try (now rewrite appended_nil); reflexivity.
Qed.

Lemma stage_appjs_simpleText docs : stage (AppJs.simpleText docs).
Proof.
  intro st. destruct docs; unfold result; simpl; now rewrite appended_nil.
Qed.

Lemma bind_stage {A B} (m : M A) (k : A -> M B) st :
  stage m ->
  bind m k st =
  match result m with
  | Ok a => k a (appended st (console (snd (m initial))))
  | Throw e => (Throw e, appended st (console (snd (m initial))))
  end.
Proof. intro H. unfold bind. rewrite (H st). reflexivity. Qed.

Lemma bind_log {B} args (k : unit -> M B) st :
  bind (log args) k st = k tt (appended st [console_log args]).
Proof. reflexivity. Qed.

Lemma sent_appended st entries : sent (appended st entries) = sent st.
Proof. reflexivity. Qed.

(** The [try] block of part_001 from the keywords on, and its [catch]. *)
Lemma revised_searchNews_run env u :
  exists entries,
    Revised.searchNews env {| userRequest := Some u |} initial =
    (Ok tt, {| console := entries;
               sent := Some (revised_response (revised_outcome env (utterance u))) |}).
Proof.
  unfold Revised.searchNews, revised_outcome. cbn [userRequest].
  rewrite bind_log. unfold bind at 1, ret at 1. rewrite bind_log.
  unfold try_catch.
  unfold bind at 1. rewrite revised_extractKeywords_run.
  rewrite bind_log.
  rewrite (bind_stage _ _ (stage_fetchNewsData 20 env [] None)).
  fold (Revised.fetchNewsData env [] None).
  destruct (result (Revised.fetchNewsData env [] None)) as [newsData|e];
    [|eexists; reflexivity].
  rewrite bind_log.
  rewrite (bind_stage _ _ (stage_createEmbeddings env newsData)).
  destruct (result (createEmbeddings env newsData)) as [embeddings|e];
    [|eexists; reflexivity].
  rewrite bind_log.
  rewrite (bind_stage _ _ (stage_revised_storeEmbeddings env embeddings)).
  destruct (result (Revised.storeEmbeddings env embeddings)) as [d|e];
    [|eexists; reflexivity].
  rewrite bind_log.
  rewrite (bind_stage _ _ (stage_findSimilarDocuments env (utterance u) None)).
  destruct (result (findSimilarDocuments env (utterance u) None)) as [docs|e];
    [|eexists; reflexivity].
  rewrite bind_log. eexists. reflexivity.
Qed.

Lemma appjs_searchNews_run env u :
  exists entries,
    AppJs.searchNews env {| userRequest := Some u |} initial =
    (Ok tt, {| console := entries;
               sent := Some (appjs_response (appjs_outcome env (utterance u))) |}).
Proof.
  unfold AppJs.searchNews, appjs_outcome. cbn [userRequest].
  rewrite bind_log. unfold bind at 1, ret at 1.
  unfold try_catch.
  rewrite (bind_stage _ _ (stage_appjs_extractKeywords env (utterance u))).
  destruct (result (AppJs.extractKeywords env (utterance u))) as [keywords|e];
    [|eexists; reflexivity].
  rewrite (bind_stage _ _ (stage_fetchNewsData 40 env keywords None)).
  fold (AppJs.fetchNewsData env keywords None).
  destruct (result (AppJs.fetchNewsData env keywords None)) as [newsData|e];
    [|eexists; reflexivity].
  rewrite (bind_stage _ _ (stage_createEmbeddings env newsData)).
  destruct (result (createEmbeddings env newsData)) as [embeddings|e];
    [|eexists; reflexivity].
  rewrite (bind_stage _ _ (stage_appjs_storeEmbeddings env embeddings)).
  destruct (result (AppJs.storeEmbeddings env embeddings)) as [d|e];
    [|eexists; reflexivity].
  rewrite (bind_stage _ _ (stage_findSimilarDocuments env (utterance u) None)).
  destruct (result (findSimilarDocuments env (utterance u) None)) as [docs|e];
    [|eexists; reflexivity].
  rewrite (bind_stage _ _ (stage_appjs_simpleText docs)).
  destruct (result (AppJs.simpleText docs)) as [text|e]; eexists; reflexivity.
Qed.

(** X13.  The handler of part_001, given a body with a [userRequest],
    completes normally and sends one response that is decided by the
    stages in their order: the fetch for the empty query, the embedding of
    its articles, the store of the embedded articles and the similarity
    search for the utterance.  The first stage that fails makes it the 500
    apology; otherwise it is 200 with the reply text of the similarity
    results. *)
Theorem revised_searchNews_response :
  forall (env : Env) (u : UserRequest),
    exists st,
      Revised.searchNews env {| userRequest := Some u |} initial = (Ok tt, st)
      /\ sent st = Some (revised_response (revised_outcome env (utterance u))).
Proof.
  intros env u. destruct (revised_searchNews_run env u) as [entries H].
  eexists. split; [exact H|reflexivity].
Qed.

(** X14.  The handler of src/app.js, given a body with a [userRequest],
    completes normally and sends one response decided by its stages in
    their order: keyword extraction, the fetch for the keywords, the
    embedding, the store, the similarity search and the building of the
    text.  The first failure makes it 500 with the Internal Server Error
    object; otherwise it is 200 with the text. *)
Theorem appjs_searchNews_response :
  forall (env : Env) (u : UserRequest),
    exists st,
      AppJs.searchNews env {| userRequest := Some u |} initial = (Ok tt, st)
      /\ sent st = Some (appjs_response (appjs_outcome env (utterance u))).
Proof.
  intros env u. destruct (appjs_searchNews_run env u) as [entries H].
  eexists. split; [exact H|reflexivity].
Qed.

(** X15.  With a [userRequest] in the body, the handler of either variant
    never ends with an uncaught error and always answers, with status 200
    and a version 2.0 text, or with status 500 and the fixed failure body
    of the variant. *)
Theorem searchNews_always_answers :
  forall (env : Env) (u : UserRequest),
    (exists st r,
        Revised.searchNews env {| userRequest := Some u |} initial = (Ok tt, st)
        /\ sent st = Some r
        /\ ((exists text, r = {| status := 200; body := SkillResponse "2.0" text |})
            \/ r = {| status := 500; body := SkillResponse "2.0" Revised.APOLOGY |}))
    /\ (exists st r,
           AppJs.searchNews env {| userRequest := Some u |} initial = (Ok tt, st)
           /\ sent st = Some r
           /\ ((exists text, r = {| status := 200; body := SkillResponse "2.0" text |})
               \/ r = {| status := 500; body := ErrorJson "Internal Server Error" |})).
Proof.
  intros env u. split.
  - destruct (revised_searchNews_run env u) as [entries H].
    do 2 eexists. split; [exact H|]. split; [reflexivity|].
    destruct (revised_outcome env (utterance u)); simpl; eauto.
  - destruct (appjs_searchNews_run env u) as [entries H].
    do 2 eexists. split; [exact H|]. split; [reflexivity|].
    destruct (appjs_outcome env (utterance u)); simpl; eauto.
Qed.

(** X16.  In part_001 the outcome of a request does not depend on the
    language model: the keywords are always empty, so replacing the
    provider changes neither how the handler completes nor the response
    it sends. *)
Theorem revised_searchNews_ignores_language_model :
  forall (env : Env) (post : jsstring -> completion (list value))
         (req_body : RequestBody),
    fst (Revised.searchNews (with_language_model env post) req_body initial)
    = fst (Revised.searchNews env req_body initial)
    /\ sent (snd (Revised.searchNews (with_language_model env post) req_body initial))
       = sent (snd (Revised.searchNews env req_body initial)).
Proof.
  intros env post [[u|]]; [|split; reflexivity].
  destruct (revised_searchNews_run env u) as [e1 H1].
  destruct (revised_searchNews_run (with_language_model env post) u) as [e2 H2].
  rewrite H1, H2. split; reflexivity.
Qed.

(** X17.  When the similarity search returns no data (as the store client
    does with an error reply), src/app.js answers 500 whatever the other
    stages do, while part_001 answers 200 with the "no results" message
    once the fetch, the embedding and the store have succeeded. *)
Theorem searchNews_absent_results :
  forall (env : Env) (u : UserRequest),
    result (findSimilarDocuments env (utterance u) None) = Ok None ->
    (exists st,
        AppJs.searchNews env {| userRequest := Some u |} initial = (Ok tt, st)
        /\ sent st = Some {| status := 500;
                             body := ErrorJson "Internal Server Error" |})
    /\ (forall newsData embeddings d,
           result (Revised.fetchNewsData env [] None) = Ok newsData ->
           result (createEmbeddings env newsData) = Ok embeddings ->
           result (Revised.storeEmbeddings env embeddings) = Ok d ->
           exists st,
             Revised.searchNews env {| userRequest := Some u |} initial = (Ok tt, st)
             /\ sent st = Some {| status := 200;
                                  body := SkillResponse "2.0" Revised.NO_RESULTS |}).
Proof.
  intros env u Hnone. split.
  - destruct (appjs_searchNews_run env u) as [entries H].
    eexists. split; [exact H|]. cbn [sent]. f_equal.
    unfold appjs_outcome.
    destruct (result (AppJs.extractKeywords env (utterance u)))
      as [keywords|e]; [|reflexivity].
    destruct (result (AppJs.fetchNewsData env keywords None))
      as [newsData|e]; [|reflexivity].
    destruct (result (createEmbeddings env newsData))
      as [embeddings|e]; [|reflexivity].
    destruct (result (AppJs.storeEmbeddings env embeddings))
      as [d|e]; [|reflexivity].
    rewrite Hnone. reflexivity.
  - intros newsData embeddings d Hfetch Hemb Hstore.
    destruct (revised_searchNews_run env u) as [entries H].
    eexists. split; [exact H|]. cbn [sent]. f_equal.
    unfold revised_outcome. now rewrite Hfetch, Hemb, Hstore, Hnone.
Qed.

Lemma searchNews_absent_results_witness :
  exists st,
    AppJs.searchNews rpc_error_env sample_request initial = (Ok tt, st)
    /\ sent st = Some {| status := 500;
                         body := ErrorJson "Internal Server Error" |}.
Proof.
  exact (proj1 (@searchNews_absent_results rpc_error_env
                  {| utterance := js "q" |} eq_refl)).
Defined.

(** *** The two stores *)

(** X18.  The [storeEmbeddings] of the two variants complete alike, with
    the data of the reply or with the error of a rejected call, except
    when the reply of the insert carries an error: only then do they
    differ. *)
Theorem storeEmbeddings_variants_differ_iff :
  forall (env : Env) (embeddings : list EmbeddedArticle) (st : state),
    fst (AppJs.storeEmbeddings env embeddings st)
    <> fst (Revised.storeEmbeddings env embeddings st)
    <-> exists r e, supabase_insert env embeddings = Ok r /\ error r = Some e.
Proof.
  intros env embeddings st. unfold AppJs.storeEmbeddings, Revised.storeEmbeddings.
  run. destruct (supabase_insert env embeddings) as [[d [e|]]|e]; simpl; split.
  - intros _. now exists {| data := d; error := Some e |}, e.
  - intros _. discriminate.
  - intro H. now contradiction H.
  - intros [r [e [H He]]]. injection H as <-. discriminate He.
  - intro H. now contradiction H.
  - intros [r [e' [H _]]]. discriminate H.
Qed.

(** *** What the fetcher returns *)

Lemma cleanText_collapsed text : single_newlines (cleanText text).
Proof. unfold cleanText, collapseNewlines. now apply collapse_output. Qed.

(** X19.  Every article that [fetchNewsData] returns is normalized: its
    title is not empty, its title, body and date hold no two line feeds in
    a row, and its link is the fixed address of the news page followed by
    a document id. *)
Theorem fetchNewsData_articles_normalized :
  forall (d : nat) (env : Env) (query : jsstring) (limit : option nat)
         (st st' : state) (articles : list Article),
    fetchNewsData d env query limit st = (Ok articles, st') ->
    Forall (fun a =>
              title a <> []
              /\ single_newlines (title a) /\ single_newlines (article a)
              /\ single_newlines (date a)
              /\ exists id,
                   link a = js "https://news.sbs.co.kr/news/endPage.do?news_id=" ++ id)
           articles.
Proof.
  intros d env query limit st st' articles. unfold fetchNewsData.
  destruct (encodeURIComponent query) as [q|]; [|discriminate].
  run. destruct (axios_get env _) as [[| items |]|e]; simpl;
    try (intro H; injection H as <- _; constructor).
  destruct (mapM to_article items st) as [[mapped|e] st1] eqn:Hm; simpl;
    intro H; injection H as <- _; [|constructor].
  apply mapM_to_article_ok in Hm.
  apply Forall_forall. intros a Ha. apply filter_In in Ha as [Hin Htitle].
  split.
  - intro Heq. rewrite Heq in Htitle. discriminate.
  - clear Htitle. induction Hm as [|raw a' items mapped Hn Hm IH];
      [contradiction|].
    destruct Hin as [<-|Hin]; [|now apply IH].
    destruct Hn as [t [b [dt [_ [_ [_ ->]]]]]]. cbn [title article date link].
    repeat split; try apply cleanText_collapsed. now exists (DOCID raw).
Qed.

Lemma fetchNewsData_articles_normalized_witness :
  exists articles,
    Revised.fetchNewsData sample_env [] None initial = (Ok articles, initial)
    /\ Forall (fun a => single_newlines (article a)) articles.
Proof.
  eexists. split; [vm_compute; reflexivity|].
  eapply Forall_impl;
    [|apply (@fetchNewsData_articles_normalized 20 sample_env [] None
               initial initial); vm_compute; reflexivity].
  intros a H. apply H.
Defined.

(** *** A reply of the language model that cannot be encoded *)

(** X20.  In src/app.js the text of the language model reaches the URL of
    the news search: when its formatted keywords cannot be encoded (they
    hold an unpaired surrogate), [fetchNewsData] raises URIError inside
    the [try] block of the handler and the request is answered 500. *)
Theorem appjs_searchNews_unencodable_keywords :
  forall (env : Env) (u : UserRequest) (text : jsstring) (rest : list value),
    axios_post env (searchPrompt (utterance u)) = Ok (VString text :: rest) ->
    encodeURIComponent (AppJs.formatKeywords text) = None ->
    result (AppJs.fetchNewsData env (AppJs.formatKeywords text) None)
    = Throw URIError
    /\ exists st,
         AppJs.searchNews env {| userRequest := Some u |} initial = (Ok tt, st)
         /\ sent st = Some {| status := 500;
                              body := ErrorJson "Internal Server Error" |}.
Proof.
  intros env u text rest Hpost Henc.
  assert (Hfetch : result (AppJs.fetchNewsData env (AppJs.formatKeywords text) None)
                   = Throw URIError).
  { unfold result, AppJs.fetchNewsData.
    now rewrite fetchNewsData_unencodable_query. }
  split; [exact Hfetch|].
  destruct (appjs_searchNews_run env u) as [entries H].
  eexists. split; [exact H|]. cbn [sent]. f_equal.
  unfold appjs_outcome, result at 1.
  rewrite (appjs_extractKeywords_success env (utterance u) initial Hpost).
  cbn [fst]. now rewrite Hfetch.
Qed.

Lemma appjs_searchNews_unencodable_keywords_witness :
  exists st,
    AppJs.searchNews
      (with_language_model sample_env (fun _ => Ok [VString [97%N; 32%N; 55357%N]]))
      sample_request initial = (Ok tt, st)
    /\ sent st = Some {| status := 500;
                         body := ErrorJson "Internal Server Error" |}.
Proof.
  exact (proj2 (@appjs_searchNews_unencodable_keywords
                  (with_language_model sample_env
                     (fun _ => Ok [VString [97%N; 32%N; 55357%N]]))
                  {| utterance := js "q" |} [97%N; 32%N; 55357%N] []
                  eq_refl eq_refl)).
Defined.

(** *** A failed embedding call and the request *)

Lemma createEmbeddings_failed_call env documents i doc e :
  nth_error documents i = Some doc ->
  embed_document env i doc = Throw e ->
  exists e', result (createEmbeddings env documents) = Throw e'.
Proof.
  intros Hi He. unfold result. rewrite createEmbeddings_pure. cbn [fst].
  destruct (promise_all (settle_time env) (mapi (embed_document env) documents))
    as [vs|e'] eqn:Hall; [|now exists e'].
  apply promise_all_fulfilled_iff in Hall.
  assert (Hp : nth_error (mapi (embed_document env) documents) i = Some (Throw e)).
  { unfold mapi. rewrite nth_error_mapi_from, Hi. simpl. now rewrite He. }
  rewrite Hall in Hp. now apply nth_error_map_Ok_Throw in Hp.
Qed.

(** X21.  A failed embedding call aborts the request in both variants:
    when the call for one of the fetched articles fails, the handler
    answers 500 with its failure body, whatever the store and the
    similarity search would do. *)
Theorem searchNews_embedding_failure :
  forall (env : Env) (u : UserRequest) (i : nat) (doc : Article) (e : exn),
    embed_document env i doc = Throw e ->
    (forall newsData,
        result (Revised.fetchNewsData env [] None) = Ok newsData ->
        nth_error newsData i = Some doc ->
        exists st,
          Revised.searchNews env {| userRequest := Some u |} initial = (Ok tt, st)
          /\ sent st = Some {| status := 500;
                               body := SkillResponse "2.0" Revised.APOLOGY |})
    /\ (forall keywords newsData,
           result (AppJs.extractKeywords env (utterance u)) = Ok keywords ->
           result (AppJs.fetchNewsData env keywords None) = Ok newsData ->
           nth_error newsData i = Some doc ->
           exists st,
             AppJs.searchNews env {| userRequest := Some u |} initial = (Ok tt, st)
             /\ sent st = Some {| status := 500;
                                  body := ErrorJson "Internal Server Error" |}).
Proof.
  intros env u i doc e He. split.
  - intros newsData Hfetch Hi.
    destruct (createEmbeddings_failed_call env newsData i Hi He) as [e' Hemb].
    destruct (revised_searchNews_run env u) as [entries H].
    eexists. split; [exact H|]. cbn [sent]. f_equal.
    unfold revised_outcome. now rewrite Hfetch, Hemb.
  - intros keywords newsData Hkw Hfetch Hi.
    destruct (createEmbeddings_failed_call env newsData i Hi He) as [e' Hemb].
    destruct (appjs_searchNews_run env u) as [entries H].
    eexists. split; [exact H|]. cbn [sent]. f_equal.
    unfold appjs_outcome. now rewrite Hkw, Hfetch, Hemb.
Qed.

Lemma searchNews_embedding_failure_witness :
  let env := {| axios_post := axios_post sample_env;
                axios_get := axios_get sample_env;
                openai_embeddings_create := fun c _ =>
                  match c with
                  | ArticleCall _ => Throw (HostError 5)
                  | QueryCall => Ok [[1%Z]]
                  end;
                settle_time := settle_time sample_env;
                supabase_insert := supabase_insert sample_env;
                supabase_rpc_match_documents :=
                  supabase_rpc_match_documents sample_env |} in
  exists st,
    Revised.searchNews env sample_request initial = (Ok tt, st)
    /\ sent st = Some {| status := 500;
                         body := SkillResponse "2.0" Revised.APOLOGY |}.
Proof.
  intro env.
  refine (proj1 (@searchNews_embedding_failure env {| utterance := js "q" |}
                   0 _ (HostError 5) _) _ _ _).
  - reflexivity.
  - vm_compute. reflexivity.
  - reflexivity.
Defined.

(** *** The "no results" message *)

(** X22.  In part_001 the reply text is the "no results" message only
    when there is no result: for a non-empty sequence of similarity
    results the text is never that message, whatever the links are. *)
Theorem revised_simpleText_no_results_iff :
  forall similarDocuments : option (list SimilarityResult),
    Revised.simpleText similarDocuments = Revised.NO_RESULTS
    <-> similarDocuments = None \/ similarDocuments = Some [].
Proof.
  intros [[|d docs]|]; split; intro H; auto.
  - exfalso. apply (f_equal (firstn 6)) in H.
    unfold Revised.simpleText in H.
    rewrite firstn_app in H.
    change (6 - List.length HEADER) with 0 in H.
    rewrite firstn_0, app_nil_r in H.
    vm_compute in H. discriminate H.
  - destruct H as [H|H]; discriminate H.
Qed.
